(** * flac2alac: a shallow embedding of [flac2alac.py] and its properties

    The program is an orchestration layer: it plans destination paths,
    queries the file system, runs an external encoder and aggregates the
    job results.  The pure parts (path arithmetic, command vectors, the
    report counters) are Rocq functions.  The effectful parts are programs
    of a small free monad [Prog] over the operations the script asks of its
    environment (file system, subprocesses, output streams); a program is
    run against a handler, which answers every operation with a value or
    with an exception, and the run records the trace of operations.
    General theorems quantify over every handler, that is over every
    behaviour of the environment. *)

From Stdlib Require Import String Ascii List ZArith Bool Arith Lia Floats DecimalString.
From Stdlib Require Import Sorting.Sorted Sorting.Permutation Sorting.Mergesort Orders.
Import ListNotations.

Local Open Scope list_scope.
Local Open Scope string_scope.

(** ** Python strings

    A Python [str] is modelled by a Rocq [string] holding its UTF-8
    encoding.  Comparison by bytes then agrees with Python's comparison by
    code points. *)

Module Str.

Definition is_upper (c : ascii) : bool :=
  let n := nat_of_ascii c in ((65 <=? n) && (n <=? 90))%nat.

Definition lower_char (c : ascii) : ascii :=
  if is_upper c then ascii_of_nat (nat_of_ascii c + 32) else c.

(** [s.lower()], on the ASCII letters.  Python also maps non-ASCII letters;
    no such letter maps to an ASCII one of [".flac"], so the suffix test of
    the program is unaffected. *)
Fixpoint lower (s : string) : string :=
  match s with
  | EmptyString => EmptyString
  | String c s' => String (lower_char c) (lower s')
  end.

(** [s.rfind(c)]: the index of the last occurrence, [None] for Python's -1. *)
Fixpoint rfind (c : ascii) (s : string) : option nat :=
  match s with
  | EmptyString => None
  | String a s' =>
      match rfind c s' with
      | Some i => Some (S i)
      | None => if Ascii.eqb a c then Some 0 else None
      end
  end.

(** [sep.join(l)] *)
Fixpoint join (sep : string) (l : list string) : string :=
  match l with
  | [] => ""
  | [x] => x
  | x :: rest => x ++ sep ++ join sep rest
  end.

(** [s.split(sep)] for a one-character separator. *)
Fixpoint split_on (sep : ascii) (s : string) : list string :=
  match s with
  | EmptyString => [""]
  | String c s' =>
      if Ascii.eqb c sep then "" :: split_on sep s'
      else match split_on sep s' with
           | [] => [String c ""]
           | x :: rest => String c x :: rest
           end
  end.

Definition to_list (s : string) : list ascii := list_ascii_of_string s.
Definition of_list (l : list ascii) : string := string_of_list_ascii l.

Fixpoint list_prefix (p l : list ascii) : option (list ascii) :=
  match p, l with
  | [], _ => Some l
  | a :: p', b :: l' => if Ascii.eqb a b then list_prefix p' l' else None
  | _ :: _, [] => None
  end.

(** The characters for which [str.isspace()] holds, each as the list of the
    bytes of its UTF-8 encoding. *)
Definition whitespace : list (list ascii) :=
  map (map ascii_of_nat)
    [ [9]; [10]; [11]; [12]; [13]; [28]; [29]; [30]; [31]; [32];
      [194; 133]; [194; 160]; [225; 154; 128];
      [226; 128; 128]; [226; 128; 129]; [226; 128; 130]; [226; 128; 131];
      [226; 128; 132]; [226; 128; 133]; [226; 128; 134]; [226; 128; 135];
      [226; 128; 136]; [226; 128; 137]; [226; 128; 138];
      [226; 128; 168]; [226; 128; 169]; [226; 128; 175];
      [226; 129; 159]; [227; 128; 128] ].

Fixpoint drop_one (seqs : list (list ascii)) (l : list ascii) : option (list ascii) :=
  match seqs with
  | [] => None
  | s :: rest =>
      match list_prefix s l with
      | Some l' => Some l'
      | None => drop_one rest l
      end
  end.

Fixpoint drop_leading (fuel : nat) (seqs : list (list ascii)) (l : list ascii) : list ascii :=
  match fuel with
  | O => l
  | S fuel' =>
      match drop_one seqs l with
      | Some l' => drop_leading fuel' seqs l'
      | None => l
      end
  end.

(** [s.strip()]: leading and trailing whitespace removed.  The fuel is the
    length of the string, and every step removes at least one byte. *)
Definition strip (s : string) : string :=
  let l := drop_leading (String.length s) whitespace (to_list s) in
  let r := drop_leading (List.length l) (map (@rev ascii) whitespace) (rev l) in
  of_list (rev r).

(** [s.startswith(p)] *)
Definition startswith (s p : string) : bool := String.prefix p s.

(** Truth value of a string: the empty string is false. *)
Definition truthy (s : string) : bool :=
  match s with EmptyString => false | _ => true end.

End Str.

(** Truth value of an [Optional[str]]: [None] and [""] are false. *)
Definition opt_truthy (o : option string) : bool :=
  match o with
  | Some s => Str.truthy s
  | None => false
  end.

(** ** Exceptions

    Only subclasses of [Exception] are modelled ([KeyboardInterrupt] and
    the like are not).  [exn_msg] is [str(e)]. *)

Inductive ExnKind : Type :=
| FileNotFoundError
| OSError            (* any other OSError, PermissionError for one *)
| ValueError
| AssertionError
| RuntimeError
| OtherException.

Record Exn : Type := mkExn { exn_kind : ExnKind; exn_msg : string }.

Definition kind_eqb (a b : ExnKind) : bool :=
  match a, b with
  | FileNotFoundError, FileNotFoundError | OSError, OSError
  | ValueError, ValueError | AssertionError, AssertionError
  | RuntimeError, RuntimeError | OtherException, OtherException => true
  | _, _ => false
  end.

Inductive Result (A : Type) : Type :=
| OK (a : A)
| Err (e : Exn).
Arguments OK {A} a.
Arguments Err {A} e.

(** ** pathlib's pure paths (POSIX flavour)

    A path is its root flag and its components; pathlib drops empty and
    ["."] components when it parses a string.  The root ["//"] that POSIX
    allows is not modelled. *)

Record Path : Type := mkPath { is_abs : bool; parts : list string }.

Module PurePath.

Definition of_str (s : string) : Path :=
  let comps := Str.split_on "/" s in
  mkPath (match s with String "/" _ => true | _ => false end)
         (filter (fun c => negb (String.eqb c "" || String.eqb c ".")) comps).

(** [str(p)] *)
Definition str (p : Path) : string :=
  if is_abs p then "/" ++ Str.join "/" (parts p)
  else match parts p with
       | [] => "."
       | _ => Str.join "/" (parts p)
       end.

Definition repr (p : Path) : string := "PosixPath('" ++ str p ++ "')".

(** [p.name] *)
Definition name (p : Path) : string := last (parts p) "".

(** [name.suffix]: from the last dot, unless the dot is first or last. *)
Definition suffix_of_name (n : string) : string :=
  match Str.rfind "." n with
  | Some i =>
      if ((0 <? i) && (i <? String.length n - 1))%nat
      then substring i (String.length n - i) n
      else ""
  | None => ""
  end.

(** [p.suffix] *)
Definition suffix (p : Path) : string := suffix_of_name (name p).

(** The name [with_suffix] gives a file called [n]: the old suffix, if
    any, is cut off and the new one added. *)
Definition renamed (n sfx : string) : string :=
  let old := suffix_of_name n in
  if negb (Str.truthy old) then n ++ sfx
  else substring 0 (String.length n - String.length old) n ++ sfx.

(** [p.with_suffix(sfx)] for a well-formed [sfx] (the program only passes
    [OUTPUT_EXT]); it raises on a path with an empty name. *)
Definition with_suffix (p : Path) (sfx : string) : Result Path :=
  let n := name p in
  if negb (Str.truthy n) then
    Err (mkExn ValueError (repr p ++ " has an empty name"))
  else OK (mkPath (is_abs p) (removelast (parts p) ++ [renamed n sfx])%list).

Fixpoint strip_prefix (pre l : list string) : option (list string) :=
  match pre, l with
  | [], _ => Some l
  | a :: pre', b :: l' => if String.eqb a b then strip_prefix pre' l' else None
  | _ :: _, [] => None
  end.

(** [p.relative_to(other)]: [other] has to be [p] or one of its parents. *)
Definition relative_to (p other : Path) : Result Path :=
  match (if Bool.eqb (is_abs p) (is_abs other)
         then strip_prefix (parts other) (parts p) else None) with
  | Some rest => OK (mkPath false rest)
  | None =>
      Err (mkExn ValueError
             ("'" ++ str p ++ "' is not in the subpath of '" ++ str other
              ++ "' OR one path is relative and the other is absolute."))
  end.

(** [a / b] *)
Definition joinpath (a b : Path) : Path :=
  if is_abs b then b else mkPath (is_abs a) (parts a ++ parts b)%list.

(** [p.parent] *)
Definition parent (p : Path) : Path := mkPath (is_abs p) (removelast (parts p)).

Definition eqb (a b : Path) : bool :=
  Bool.eqb (is_abs a) (is_abs b)
  && (if list_eq_dec string_dec (parts a) (parts b) then true else false).

(** The key pathlib compares paths by: the components, the root ["/"]
    counted as the first one (CPython up to 3.11; later versions compare
    [str(p).split("/")]).  The order is by code points, case-sensitive. *)
Definition sort_key (p : Path) : list string :=
  if is_abs p then "/" :: parts p else parts p.

Fixpoint lex_compare (a b : list string) : comparison :=
  match a, b with
  | [], [] => Eq
  | [], _ :: _ => Lt
  | _ :: _, [] => Gt
  | x :: a', y :: b' =>
      match String.compare x y with
      | Eq => lex_compare a' b'
      | c => c
      end
  end.

(** [a <= b] *)
Definition leb (a b : Path) : bool :=
  match lex_compare (sort_key a) (sort_key b) with
  | Gt => false
  | _ => true
  end.

End PurePath.

Notation "a // b" := (PurePath.joinpath a b) (at level 40, left associativity).

(** ** The environment: operations, programs, handlers, traces *)

(** [os.stat_result], the two fields the program reads. *)
Record stat_result : Type := mkStat { st_mtime : float; st_size : Z }.

(** What [subprocess.run(cmd, capture_output=True, text=True)] returns. *)
Record CompletedProcess : Type := mkCompleted { returncode : Z; stderr : string }.

Definition bytes : Type := list Byte.byte.

(** A child started by [subprocess.Popen] with both pipes captured, given
    by what the parent observes of it: the successive results of
    [proc.stdout.read(1024 * 1024)] (the end of the list is the end of the
    stream, where [read] returns [b""]), the exit status [proc.wait()]
    leaves in [proc.returncode], and [proc.stderr.read()] decoded with
    [errors="ignore"]. *)
Record PopenProc : Type := mkPopen {
  stdout_reads : list (Result bytes);
  popen_returncode : Z;
  stderr_text : string
}.

Inductive Stream : Type := Stdout | Stderr.

(** The requests the program makes, indexed by the type of the answer. *)
Inductive Op : Type -> Type :=
| Which (name : string) : Op (option string)          (* shutil.which *)
| Cwd : Op Path                                       (* Path.cwd() *)
| Resolve (p : Path) : Op Path                        (* p.resolve() *)
| IsFile (p : Path) : Op bool
| IsDir (p : Path) : Op bool
| Exists (p : Path) : Op bool
| Stat (p : Path) : Op stat_result
| RGlob (p : Path) : Op (list Path)                   (* list(p.rglob("*")) *)
| Mkdir (p : Path) : Op unit                          (* p.mkdir(parents=True, exist_ok=True) *)
| Unlink (p : Path) : Op unit
| Run (cmd : list string) : Op CompletedProcess
| Popen (cmd : list string) : Op PopenProc
| Print (s : Stream) (line : string) : Op unit
| NextCompleted (pending : nat) : Op nat.             (* which pending future completes next *)

(** One entry of a trace: a request and its answer. *)
Inductive Event : Type :=
| EWhich (name : string) (r : Result (option string))
| ECwd (r : Result Path)
| EResolve (p : Path) (r : Result Path)
| EIsFile (p : Path) (r : Result bool)
| EIsDir (p : Path) (r : Result bool)
| EExists (p : Path) (r : Result bool)
| EStat (p : Path) (r : Result stat_result)
| ERGlob (p : Path) (r : Result (list Path))
| EMkdir (p : Path) (r : Result unit)
| EUnlink (p : Path) (r : Result unit)
| ERun (cmd : list string) (r : Result CompletedProcess)
| EPopen (cmd : list string) (r : Result PopenProc)
| EPrint (s : Stream) (line : string)
| ENextCompleted (pending : nat) (r : Result nat).

Definition event_of {R : Type} (op : Op R) : Result R -> Event :=
  match op in Op T return Result T -> Event with
  | Which n => EWhich n
  | Cwd => ECwd
  | Resolve p => EResolve p
  | IsFile p => EIsFile p
  | IsDir p => EIsDir p
  | Exists p => EExists p
  | Stat p => EStat p
  | RGlob p => ERGlob p
  | Mkdir p => EMkdir p
  | Unlink p => EUnlink p
  | Run c => ERun c
  | Popen c => EPopen c
  | Print s l => fun _ => EPrint s l
  | NextCompleted n => ENextCompleted n
  end.

(** Programs: return, raise, or make a request and go on with its answer. *)
Inductive Prog (A : Type) : Type :=
| Ret (a : A)
| Throw (e : Exn)
| Do {R : Type} (op : Op R) (k : Result R -> Prog A).
Arguments Ret {A} a.
Arguments Throw {A} e.
Arguments Do {A R} op k.

Fixpoint bind {A B : Type} (p : Prog A) (f : A -> Prog B) : Prog B :=
  match p with
  | Ret a => f a
  | Throw e => Throw e
  | Do op k => Do op (fun r => bind (k r) f)
  end.

Notation "x <- c1 ;; c2" := (bind c1 (fun x => c2))
  (at level 100, c1 at next level, right associativity).
Notation "c1 ;; c2" := (bind c1 (fun _ => c2))
  (at level 100, right associativity).

(** A request whose failure is raised where it is made. *)
Definition perform {R : Type} (op : Op R) : Prog R :=
  Do op (fun r => match r with OK x => Ret x | Err e => Throw e end).

(** A pure computation that may raise. *)
Definition lift {A : Type} (r : Result A) : Prog A :=
  match r with OK a => Ret a | Err e => Throw e end.

(** [try: p  except ...:], the clauses given as a partial function: [None]
    where no clause matches, and the exception goes on. *)
Fixpoint try_except {A : Type} (p : Prog A) (clauses : Exn -> option (Prog A)) : Prog A :=
  match p with
  | Ret a => Ret a
  | Throw e => match clauses e with Some q => q | None => Throw e end
  | Do op k => Do op (fun r => try_except (k r) clauses)
  end.

(** [except Exception as e] *)
Definition except_Exception {A : Type} (body : Exn -> Prog A) : Exn -> option (Prog A) :=
  fun e => Some (body e).

(** [except K as e] for one class. *)
Definition except_kind {A : Type} (k : ExnKind) (body : Exn -> Prog A) : Exn -> option (Prog A) :=
  fun e => if kind_eqb (exn_kind e) k then Some (body e) else None.

(** Two clauses in order. *)
Definition or_else {A : Type} (c1 c2 : Exn -> option (Prog A)) : Exn -> option (Prog A) :=
  fun e => match c1 e with Some q => Some q | None => c2 e end.

(** A handler answers each request in a world [W], and moves the world. *)
Definition Handler (W : Type) : Type := forall R : Type, Op R -> W -> Result R * W.

(** Running a program: its outcome, the final world and the trace. *)
Fixpoint run {W A : Type} (h : Handler W) (p : Prog A) (w : W)
  : Result A * W * list Event :=
  match p with
  | Ret a => (OK a, w, [])
  | Throw e => (Err e, w, [])
  | Do op k =>
      let '(r, w1) := h _ op w in
      let '(o, w2, t) := run h (k r) w1 in
      (o, w2, event_of op r :: t)
  end.

Definition outcome {W A : Type} (x : Result A * W * list Event) : Result A := fst (fst x).
Definition final_world {W A : Type} (x : Result A * W * list Event) : W := snd (fst x).
Definition trace {W A : Type} (x : Result A * W * list Event) : list Event := snd x.

(** The events by which a job acts on its environment. *)
Definition is_subprocess (e : Event) : bool :=
  match e with ERun _ _ | EPopen _ _ => true | _ => false end.

Definition is_mkdir (e : Event) : bool :=
  match e with EMkdir _ _ => true | _ => false end.

Definition is_unlink (e : Event) : bool :=
  match e with EUnlink _ _ => true | _ => false end.

(** A stable sort, as [sorted] is: [x] goes before the first element that
    is not below it, so equal elements keep their order. *)
Fixpoint insert_by {A : Type} (leb : A -> A -> bool) (x : A) (l : list A) : list A :=
  match l with
  | [] => [x]
  | y :: l' => if leb x y then x :: y :: l' else y :: insert_by leb x l'
  end.

Definition sorted_by {A : Type} (leb : A -> A -> bool) (l : list A) : list A :=
  fold_right (insert_by leb) [] l.

(** ** The program *)

Definition SUPPORTED_INPUT_EXTS : list string := [".flac"].
Definition OUTPUT_EXT : string := ".m4a".

Record Options : Type := mkOptions {
  output_dir : option Path;
  inplace : bool;
  overwrite : bool;
  dry_run : bool;
  workers : Z;
  keep_artwork : bool;
  prefer_afconvert : bool;
  ffmpeg_path : option string;
  delete_original : bool;
  verify : bool;
  ffmpeg_for_verify : option string
}.

(** (source, destination or none, success flag, message) *)
Definition JobResult : Type := Path * option Path * bool * string.

Definition job_success (r : JobResult) : bool := snd (fst r).
Definition job_msg (r : JobResult) : string := snd r.
Definition job_src (r : JobResult) : Path := fst (fst (fst r)).

(** [hashlib.md5]: the digest of the bytes fed to it, in hexadecimal. *)
Class Hashlib : Type := md5_hexdigest : bytes -> string.

Definition log (msg : string) : Prog unit :=
  Do (Print Stdout msg) (fun _ => Ret tt).

Definition warn (msg : string) : Prog unit :=
  Do (Print Stderr ("[WARN] " ++ msg)) (fun _ => Ret tt).

Definition err (msg : string) : Prog unit :=
  Do (Print Stderr ("[ERROR] " ++ msg)) (fun _ => Ret tt).

(** The string held by an [Optional[str]] known to be true. *)
Definition unwrap (o : option string) : string :=
  match o with Some s => s | None => "" end.

Definition which_ffmpeg (explicit : option string) : Prog (option string) :=
  if opt_truthy explicit then
    found <- perform (Which (unwrap explicit)) ;;
    Ret (if opt_truthy found then explicit else None)
  else perform (Which "ffmpeg").

Definition which_afconvert : Prog (option string) :=
  perform (Which "afconvert").

Definition no_encoder_msg : string :=
  "ffmpeg または afconvert が見つかりません。インストールしてください。".

Definition fallback_warning : string :=
  "ffmpegが見つかりませんでしたが、afconvertを使用します（メタデータ保持は限定的です）".

Definition detect_converter (prefer_afconvert : bool) (ffmpeg_path : option string)
  : Prog (string * string) :=
  ff <- which_ffmpeg ffmpeg_path ;;
  af <- which_afconvert ;;
  if prefer_afconvert && opt_truthy af then Ret ("afconvert", unwrap af)
  else if opt_truthy ff then Ret ("ffmpeg", unwrap ff)
  else if opt_truthy af then
    warn fallback_warning ;;
    Ret ("afconvert", unwrap af)
  else Throw (mkExn RuntimeError no_encoder_msg).

Definition build_ffmpeg_cmd (ffmpeg : string) (src dst : Path)
  (overwrite keep_artwork : bool) : list string :=
  ([ffmpeg]
   ++ ["-hide_banner"; "-loglevel"; "error"]
   ++ [if overwrite then "-y" else "-n"]
   ++ ["-i"; PurePath.str src]
   ++ (if keep_artwork then
         ["-map"; "0:a:0";
          "-c:a"; "alac";
          "-map"; "0:v?";
          "-c:v"; "copy";
          "-disposition:v:0"; "attached_pic";
          "-map_metadata"; "0";
          "-movflags"; "use_metadata_tags"]
       else
         ["-map"; "0:a:0";
          "-c:a"; "alac";
          "-map_metadata"; "0";
          "-movflags"; "use_metadata_tags"])
   ++ [PurePath.str dst])%list.

Definition build_afconvert_cmd (afconvert : string) (src dst : Path) (overwrite : bool)
  : list string :=
  [afconvert; "-f"; "m4af"; "-d"; "alac"; PurePath.str src; PurePath.str dst].

Definition ensure_parent_dir (p : Path) : Prog unit :=
  perform (Mkdir (PurePath.parent p)).

Definition compute_output_path (src : Path) (opts : Options) (input_root : option Path)
  : Result Path :=
  match PurePath.with_suffix src OUTPUT_EXT with
  | Err e => Err e
  | OK named =>
      let out_name := PurePath.name named in
      if inplace opts then PurePath.with_suffix src OUTPUT_EXT
      else
        match output_dir opts with
        | None => Err (mkExn AssertionError "")
        | Some out =>
            match input_root with
            | None => OK (out // mkPath false [out_name])
            | Some root =>
                match PurePath.relative_to src root with
                | Err e => Err e
                | OK rel =>
                    match PurePath.with_suffix rel OUTPUT_EXT with
                    | Err e => Err e
                    | OK rel' => OK (out // rel')
                    end
                end
            end
        end
  end.

Definition should_skip (src dst : Path) (overwrite : bool) : Prog bool :=
  if overwrite then Ret false
  else
    there <- perform (Exists dst) ;;
    if negb there then Ret false
    else
      try_except
        (d <- perform (Stat dst) ;;
         s <- perform (Stat src) ;;
         Ret (PrimFloat.leb (st_mtime s) (st_mtime d)))
        (except_kind FileNotFoundError (fun _ => Ret false)).

Definition supported (p : Path) : bool :=
  existsb (String.eqb (Str.lower (PurePath.suffix p))) SUPPORTED_INPUT_EXTS.

(** The inner loop of [gather_inputs], over what [rglob] found. *)
Fixpoint gather_found (found files : list Path) : Prog (list Path) :=
  match found with
  | [] => Ret files
  | f :: rest =>
      isf <- perform (IsFile f) ;;
      if isf && supported f then gather_found rest (files ++ [f])%list
      else gather_found rest files
  end.

(** The outer loop of [gather_inputs]. *)
Fixpoint gather_paths (paths files : list Path) : Prog (list Path) :=
  match paths with
  | [] => Ret files
  | p :: rest =>
      isf <- perform (IsFile p) ;;
      if isf && supported p then gather_paths rest (files ++ [p])%list
      else
        isd <- perform (IsDir p) ;;
        if isd then
          found <- perform (RGlob p) ;;
          files' <- gather_found found files ;;
          gather_paths rest files'
        else
          warn ("対象外: " ++ PurePath.str p) ;;
          gather_paths rest files
  end.

Definition gather_inputs (paths : list Path) : Prog (list Path) :=
  files <- gather_paths paths [] ;;
  Ret (sorted_by PurePath.leb files).

(** Where a block of a function leaves it: the function goes on, or the
    block has executed a [return]. *)
Inductive Flow (R A : Type) : Type :=
| Go (a : A)
| Return (r : R).
Arguments Go {R A} a.
Arguments Return {R A} r.

Definition skip_msg : string := "skip: 既に最新の出力が存在".
Definition dry_msg : string := "dry-run: 変換予定".
Definition verify_mismatch_msg : string := "verify不一致: PCM MD5が一致しません".
Definition verify_unavailable_warning : string :=
  "--verify 指定ですが ffmpeg が見つからないため検証をスキップします".

Definition pcm_cmd (ffmpeg : string) (path : Path) : list string :=
  [ffmpeg;
   "-v"; "error";
   "-i"; PurePath.str path;
   "-map"; "0:a:0";
   "-f"; "s32le";
   "-"].

(** The loop [for chunk in iter(lambda: proc.stdout.read(1024 * 1024), b"")]:
    the bytes fed to the digest, or the exception a read raised. *)
Fixpoint read_chunks (reads : list (Result bytes)) (fed : bytes) : Result bytes :=
  match reads with
  | [] => OK fed
  | OK [] :: _ => OK fed
  | OK chunk :: rest => read_chunks rest (fed ++ chunk)%list
  | Err e :: _ => Err e
  end.

(** What [compute_pcm_md5] makes of the child it started. *)
Definition pcm_digest {hashlib : Hashlib} (proc : PopenProc) : Result string :=
  match read_chunks (stdout_reads proc) [] with
  | Err e => Err e
  | OK fed =>
      if negb (popen_returncode proc =? 0)%Z then
        let err_out := Str.strip (stderr_text proc) in
        Err (mkExn RuntimeError
               (if Str.truthy err_out then err_out else "PCMデコードに失敗"))
      else OK (md5_hexdigest fed)
  end.

Section Program.

Context {hashlib : Hashlib}.

Definition compute_pcm_md5 (ffmpeg : string) (path : Path) : Prog string :=
  proc <- perform (Popen (pcm_cmd ffmpeg path)) ;;
  lift (pcm_digest proc).

Definition convert_one (src : Path) (opts : Options) (detected : string * string)
  (input_root : option Path) : Prog JobResult :=
  let '(kind, bin_path) := detected in
  dst <- lift (compute_output_path src opts input_root) ;;
  skip <- should_skip src dst (overwrite opts) ;;
  if skip then Ret (src, Some dst, true, skip_msg)
  else if dry_run opts then Ret (src, Some dst, true, dry_msg)
  else
    ensure_parent_dir dst ;;
    prepared <-
      (if String.eqb kind "ffmpeg" then
         Ret (Go (build_ffmpeg_cmd bin_path src dst (overwrite opts) (keep_artwork opts)))
       else
         there <- (if overwrite opts then perform (Exists dst) else Ret false) ;;
         removed <-
           (if there then
              try_except
                (perform (Unlink dst) ;; Ret (Go tt))
                (except_Exception (fun e =>
                   Ret (Return (src, Some dst, false, "出力の削除に失敗: " ++ exn_msg e))))
            else Ret (Go tt)) ;;
         match removed with
         | Return r => Ret (Return r)
         | Go _ => Ret (Go (build_afconvert_cmd bin_path src dst (overwrite opts)))
         end) ;;
    match prepared with
    | Return r => Ret r
    | Go cmd =>
        ran <-
          try_except
            (proc <- perform (Run cmd) ;;
             if negb (returncode proc =? 0)%Z then
               there <- perform (Exists dst) ;;
               empty <- (if there then
                           st <- perform (Stat dst) ;; Ret (st_size st =? 0)%Z
                         else Ret false) ;;
               (if empty then
                  try_except (perform (Unlink dst))
                             (except_Exception (fun _ => Ret tt))
                else Ret tt) ;;
               let msg := Str.strip (stderr proc) in
               Ret (Return (src, Some dst, false,
                            if Str.truthy msg then msg else "変換に失敗"))
             else Ret (Go tt))
            (or_else
               (except_kind FileNotFoundError (fun _ =>
                  Ret (Return (src, Some dst, false,
                               "コマンドが見つかりません: " ++ hd "" cmd))))
               (except_Exception (fun e =>
                  Ret (Return (src, Some dst, false, exn_msg e))))) ;;
        match ran with
        | Return r => Ret r
        | Go _ =>
            verified <-
              (if verify opts then
                 if negb (opt_truthy (ffmpeg_for_verify opts)) then
                   warn verify_unavailable_warning ;; Ret (Go tt)
                 else
                   try_except
                     (md5_src <- compute_pcm_md5 (unwrap (ffmpeg_for_verify opts)) src ;;
                      md5_dst <- compute_pcm_md5 (unwrap (ffmpeg_for_verify opts)) dst ;;
                      if negb (String.eqb md5_src md5_dst) then
                        try_except
                          (there <- perform (Exists dst) ;;
                           if there then perform (Unlink dst) else Ret tt)
                          (except_Exception (fun _ => Ret tt)) ;;
                        Ret (Return (src, Some dst, false, verify_mismatch_msg))
                      else Ret (Go tt))
                     (except_Exception (fun e =>
                        Ret (Return (src, Some dst, false, "verify失敗: " ++ exn_msg e))))
               else Ret (Go tt)) ;;
            match verified with
            | Return r => Ret r
            | Go _ =>
                (if delete_original opts then
                   try_except (perform (Unlink src))
                     (except_Exception (fun e =>
                        warn ("元ファイル削除に失敗: " ++ PurePath.str src
                              ++ " (" ++ exn_msg e ++ ")")))
                 else Ret tt) ;;
                Ret (src, Some dst, true, "ok")
            end
        end
    end.

End Program.

(** The namespace [parse_args] hands to [main].  [-o] and [--inplace] are
    declared in a mutually exclusive group: on a command line that has
    both, [parse_args] prints the usage and exits with status 2 before
    [main] goes on.  So a namespace holds at most one of the two, and
    [target] says which; [output] and [inplace] are the attributes [main]
    reads. *)
Module Args.
Inductive Target : Type :=
| Default                 (* neither: [output] is [None], [inplace] is [False] *)
| Output (dir : Path)     (* [-o dir] *)
| InPlace.                (* [--inplace] *)

Record t : Type := mk {
  inputs : list string;
  target : Target;
  workers : Z;
  dry_run : bool;
  overwrite : bool;
  keep_artwork : bool;
  prefer_afconvert : bool;
  ffmpeg_path : option string;
  delete_original : bool;
  verify : bool
}.

Definition output (a : t) : option Path :=
  match target a with Output dir => Some dir | _ => None end.

Definition inplace (a : t) : bool :=
  match target a with InPlace => true | _ => false end.
End Args.

(** The counters of the report loop. *)
Record Counts : Type := mkCounts { ok : nat; skipped : nat; failed : nat }.

Definition str_of_nat (n : nat) : string := NilEmpty.string_of_uint (Nat.to_uint n).

(** One turn of the report loop: the status tag and the counters after it. *)
Definition classify (success : bool) (msg : string) (c : Counts) : string * Counts :=
  if Str.startswith msg "skip" then ("SKIP", mkCounts (ok c) (S (skipped c)) (failed c))
  else if Str.startswith msg "dry-run" then ("DRY", c)
  else if success then ("OK", mkCounts (S (ok c)) (skipped c) (failed c))
  else ("FAIL", mkCounts (ok c) (skipped c) (S (failed c))).

Definition report_line (status : string) (r : JobResult) : string :=
  let '(src, dst, success, msg) := r in
  let out := match dst with Some d => PurePath.str d | None => "-" end in
  "[" ++ status ++ "] " ++ PurePath.str src ++ " -> " ++ out ++ " "
  ++ (if success then "" else "(" ++ msg ++ ")").

Fixpoint report (rs : list JobResult) (c : Counts) : Prog Counts :=
  match rs with
  | [] => Ret c
  | r :: rest =>
      let '(status, c') := classify (job_success r) (job_msg r) c in
      Do (Print Stdout (report_line status r)) (fun _ => report rest c')
  end.

(** [str.lower]: Python folds every cased letter of Unicode, by tables that
    are not reproduced here; the program is read for whatever that function
    is. *)
Class Casefold : Type := py_lower : string -> string.

(** The key of the report's sort, [str(r[0]).lower()], and its order. *)
Definition report_key {casefold : Casefold} (r : JobResult) : string :=
  py_lower (PurePath.str (job_src r)).

Definition report_leb {casefold : Casefold} (a b : JobResult) : bool :=
  String.leb (report_key a) (report_key b).

Definition remove_nth {A : Type} (n : nat) (l : list A) : list A :=
  (firstn n l ++ skipn (S n) l)%list.

(** [for fut in cf.as_completed(futs): results.append(fut.result())]: the
    environment picks the pending future that completes next (its answer is
    taken modulo the number of pending futures); a future that holds an
    exception raises it from [fut.result()]. *)
Fixpoint as_completed (fuel : nat) (pending : list (Result JobResult))
  (results : list JobResult) : Prog (list JobResult) :=
  match fuel with
  | O => Ret results
  | S fuel' =>
      match pending with
      | [] => Ret results
      | _ :: _ =>
          Do (NextCompleted (List.length pending)) (fun r =>
            let i := (match r with OK i => i | Err _ => 0 end) mod List.length pending in
            match nth_error pending i with
            | Some (OK res) => as_completed fuel' (remove_nth i pending) (results ++ [res])%list
            | Some (Err e) => Throw e
            | None => Ret results
            end)
      end
  end.

Section Dispatch.

Context {hashlib : Hashlib} {casefold : Casefold}.

(** A job run to its end inside a worker: the future holds its result or
    the exception it raised. *)
Definition future (job : Prog JobResult) : Prog (Result JobResult) :=
  try_except (r <- job ;; Ret (OK r)) (except_Exception (fun e => Ret (Err e))).

Fixpoint submit_all (jobs : list (Prog JobResult)) : Prog (list (Result JobResult)) :=
  match jobs with
  | [] => Ret []
  | j :: rest =>
      f <- future j ;;
      fs <- submit_all rest ;;
      Ret (f :: fs)
  end.

(** The sequential loop of [main]. *)
Fixpoint run_sequential (jobs : list (Prog JobResult)) (results : list JobResult)
  : Prog (list JobResult) :=
  match jobs with
  | [] => Ret results
  | j :: rest =>
      r <- j ;;
      run_sequential rest (results ++ [r])%list
  end.

(** The pool of [main].  The jobs of the pool run concurrently in the
    program; here they run one after the other in the order they were
    submitted, and only the order in which their results are collected is
    left to the environment. *)
Definition run_pool (jobs : list (Prog JobResult)) : Prog (list JobResult) :=
  futs <- submit_all jobs ;;
  as_completed (List.length futs) futs [].

Definition conflict_msg : string := "--inplace と --output は同時指定できません".
Definition no_input_warning : string := "FLACファイルが見つかりませんでした".

Definition is_some {A : Type} (o : option A) : bool :=
  match o with Some _ => true | None => false end.

Definition main (args : Args.t) : Prog Z :=
  inputs <- (match Args.inputs args with
             | [] => c <- perform Cwd ;; Ret [c]
             | given => Ret (map PurePath.of_str given)
             end) ;;
  output_dir <- (if negb (Args.inplace args) && negb (is_some (Args.output args)) then
                   c <- perform Cwd ;; Ret (Some (c // mkPath false ["alac"]))
                 else Ret (Args.output args)) ;;
  if Args.inplace args && is_some output_dir then
    err conflict_msg ;; Ret 2%Z
  else
    for_verify <- which_ffmpeg (Args.ffmpeg_path args) ;;
    let opts := mkOptions output_dir (Args.inplace args) (Args.overwrite args)
                  (Args.dry_run args) (Z.max 1 (Args.workers args))
                  (Args.keep_artwork args) (Args.prefer_afconvert args)
                  (Args.ffmpeg_path args) (Args.delete_original args)
                  (Args.verify args) for_verify in
    found <- try_except
               (d <- detect_converter (prefer_afconvert opts) (ffmpeg_path opts) ;;
                Ret (Go d))
               (except_kind RuntimeError (fun e =>
                  err (exn_msg e) ;; Ret (Return 127%Z))) ;;
    match found with
    | Return code => Ret code
    | Go detected =>
        files <- gather_inputs inputs ;;
        match files with
        | [] => warn no_input_warning ;; Ret 0%Z
        | _ :: _ =>
            input_root <-
              (match inputs with
               | [only] =>
                   isd <- perform (IsDir only) ;;
                   if isd then root <- perform (Resolve only) ;; Ret (Some root)
                   else Ret None
               | _ => Ret None
               end) ;;
            log ("converter: " ++ fst detected ++ " (" ++ snd detected ++ ")") ;;
            log ("targets: " ++ str_of_nat (List.length files) ++ " file(s)") ;;
            let jobs := map (fun f => convert_one f opts detected input_root) files in
            results <- (if (workers opts =? 1)%Z then run_sequential jobs []
                        else run_pool jobs) ;;
            c <- report (sorted_by report_leb results) (mkCounts 0 0 0) ;;
            log ("done: " ++ str_of_nat (ok c) ++ " ok, " ++ str_of_nat (skipped c)
                 ++ " skip, " ++ str_of_nat (failed c) ++ " fail") ;;
            Ret (if Nat.eqb (failed c) 0 then 0%Z else 1%Z)
        end
    end.

End Dispatch.

(** ** A concrete environment

    A file system without links, a search path for executables and fixed
    behaviours for the child processes.  It answers the requests one at a
    time, the way a machine with no other process touching the files
    would; the general theorems do not depend on it. *)

Module World.

Inductive Node : Type :=
| File (mtime : float) (size : Z)
| Dir.

Record t : Type := mk {
  cwd : Path;                                   (* absolute *)
  nodes : list (Path * Node);                   (* absolute paths, in listing order *)
  executables : list (string * string);         (* what shutil.which finds *)
  encoder : list string -> Result CompletedProcess * list (Path * Node);
                                                (* subprocess.run: answer, files written *)
  decoder : list string -> Result PopenProc;    (* subprocess.Popen *)
  completion : nat -> nat                       (* which pending future is next *)
}.

Definition absolute (w : t) (p : Path) : Path := cwd w // p.

(** [".."] components folded away; sound where no component is a link. *)
Fixpoint fold_dotdot (done todo : list string) : list string :=
  match todo with
  | [] => done
  | c :: rest =>
      if String.eqb c ".." then fold_dotdot (removelast done) rest
      else fold_dotdot (done ++ [c])%list rest
  end.

Definition real (w : t) (p : Path) : Path :=
  mkPath true (fold_dotdot [] (parts (absolute w p))).

Fixpoint lookup (p : Path) (l : list (Path * Node)) : option Node :=
  match l with
  | [] => None
  | (q, n) :: rest => if PurePath.eqb p q then Some n else lookup p rest
  end.

Definition node_at (w : t) (p : Path) : option Node :=
  match parts (real w p) with
  | [] => Some Dir
  | _ => lookup (real w p) (nodes w)
  end.

Fixpoint assoc (k : string) (l : list (string * string)) : option string :=
  match l with
  | [] => None
  | (k', v) :: rest => if String.eqb k k' then Some v else assoc k rest
  end.

Definition remove (p : Path) (l : list (Path * Node)) : list (Path * Node) :=
  filter (fun e => negb (PurePath.eqb p (fst e))) l.

Definition write (l : list (Path * Node)) (e : Path * Node) : list (Path * Node) :=
  (remove (fst e) l ++ [e])%list.

Definition set_nodes (w : t) (l : list (Path * Node)) : t :=
  mk (cwd w) l (executables w) (encoder w) (decoder w) (completion w).

Definition enoent (p : Path) : Exn :=
  mkExn FileNotFoundError
    ("[Errno 2] No such file or directory: '" ++ PurePath.str p ++ "'").

(** The entries below directory [p], each as [p] joined with its path
    relative to [p]. *)
Definition below (w : t) (p : Path) : list Path :=
  flat_map (fun e =>
    match PurePath.strip_prefix (parts (real w p)) (parts (fst e)) with
    | Some (c :: rel) => [p // mkPath false (c :: rel)]
    | _ => []
    end) (nodes w).

(** The proper ancestors of a path and the path itself, outermost first. *)
Fixpoint prefixes (done todo : list string) : list Path :=
  match todo with
  | [] => []
  | c :: rest => mkPath true (done ++ [c])%list :: prefixes (done ++ [c])%list rest
  end.

Definition mkdir_parents (w : t) (p : Path) : Result unit * t :=
  let chain := prefixes [] (parts (real w p)) in
  if existsb (fun q => match lookup q (nodes w) with
                       | Some (File _ _) => true
                       | _ => false
                       end) chain
  then (Err (mkExn OSError
               ("[Errno 17] File exists: '" ++ PurePath.str p ++ "'")), w)
  else (OK tt,
        set_nodes w
          (nodes w ++ map (fun q => (q, Dir))
                        (filter (fun q => negb (is_some (lookup q (nodes w)))) chain))%list).

Definition handle : Handler t :=
  fun R op =>
    match op in Op T return t -> Result T * t with
    | Which name => fun w => (OK (assoc name (executables w)), w)
    | Cwd => fun w => (OK (cwd w), w)
    | Resolve p => fun w => (OK (real w p), w)
    | IsFile p => fun w =>
        (OK (match node_at w p with Some (File _ _) => true | _ => false end), w)
    | IsDir p => fun w =>
        (OK (match node_at w p with Some Dir => true | _ => false end), w)
    | Exists p => fun w => (OK (is_some (node_at w p)), w)
    | Stat p => fun w =>
        match node_at w p with
        | Some (File m s) => (OK (mkStat m s), w)
        | Some Dir => (OK (mkStat 0%float 0%Z), w)
        | None => (Err (enoent p), w)
        end
    | RGlob p => fun w => (OK (below w p), w)
    | Mkdir p => fun w => mkdir_parents w p
    | Unlink p => fun w =>
        match node_at w p with
        | Some (File _ _) => (OK tt, set_nodes w (remove (real w p) (nodes w)))
        | Some Dir =>
            (Err (mkExn OSError
                    ("[Errno 21] Is a directory: '" ++ PurePath.str p ++ "'")), w)
        | None => (Err (enoent p), w)
        end
    | Run cmd => fun w =>
        let '(answer, written) := encoder w cmd in
        (answer, set_nodes w (fold_left write written (nodes w)))
    | Popen cmd => fun w => (decoder w cmd, w)
    | Print _ _ => fun w => (OK tt, w)
    | NextCompleted n => fun w => (OK (completion w n), w)
    end.

End World.

(** ** Scenarios

    Concrete runs, used to exercise the theorems and to exhibit the runs
    on which the program and its description part ways. *)

(** A digest for the scenarios: the bytes themselves, as a string. *)
Definition plain_digest : Hashlib :=
  fun b => Str.of_list (map (fun x => ascii_of_nat (Byte.to_nat x)) b).

(** The paths of the scenarios are ASCII; there [str.lower] folds the
    letters A to Z and nothing else. *)
#[global] Instance ascii_lower : Casefold := Str.lower.

Module Scenario.

Definition P : string -> Path := PurePath.of_str.

Definition ffmpeg : string := "/usr/bin/ffmpeg".
Definition afconvert : string := "/usr/bin/afconvert".

(** An encoder that succeeds and writes nothing the model looks at. *)
Definition quiet_encoder (cmd : list string)
  : Result CompletedProcess * list (Path * World.Node) :=
  (OK (mkCompleted 0 ""), []).

(** A decoder whose output is one chunk holding the name of the file it is
    given (the argument after [-i]). *)
Definition naming_decoder (cmd : list string) : Result PopenProc :=
  OK (mkPopen [OK (list_byte_of_string (nth 4 cmd ""))] 0 "").

(** A decoder whose output is the same for every file. *)
Definition constant_decoder (cmd : list string) : Result PopenProc :=
  OK (mkPopen [OK [Byte.x01; Byte.x02]; OK [Byte.x03]] 0 "").

(** A decoder that exits with status 1. *)
Definition failing_decoder (cmd : list string) : Result PopenProc :=
  OK (mkPopen [] 1 "Invalid data found when processing input").

(** In [/home/u]: a directory [music] with two FLAC files, and an [alac]
    directory holding an up-to-date conversion of the first. *)
Definition home (enc : list string -> Result CompletedProcess * list (Path * World.Node))
  (dec : list string -> Result PopenProc) : World.t :=
  World.mk (P "/home/u")
    [ (P "/home", World.Dir);
      (P "/home/u", World.Dir);
      (P "/home/u/music", World.Dir);
      (P "/home/u/music/a.flac", World.File 100%float 4096);
      (P "/home/u/music/sub", World.Dir);
      (P "/home/u/music/sub/b.flac", World.File 100%float 4096);
      (P "/home/u/alac", World.Dir);
      (P "/home/u/alac/a.m4a", World.File 200%float 5000) ]
    [ ("ffmpeg", ffmpeg); ("afconvert", afconvert) ]
    enc dec (fun _ => 0).

Definition studio : World.t := home quiet_encoder constant_decoder.

(** The options [main] builds from the defaults and the given flags, for
    the output directory [/home/u/alac]. *)
Definition options (overwrite dry_run delete_original verify : bool)
  (for_verify : option string) : Options :=
  mkOptions (Some (P "/home/u/alac")) false overwrite dry_run 1 true false None
            delete_original verify for_verify.

Definition a_flac : Path := P "/home/u/music/a.flac".
Definition a_m4a : Path := P "/home/u/alac/a.m4a".
Definition b_flac : Path := P "/home/u/music/sub/b.flac".
Definition b_m4a : Path := P "/home/u/alac/b.m4a".
Definition gone_flac : Path := P "/home/u/music/gone.flac".
Definition gone_m4a : Path := P "/home/u/alac/gone.m4a".

(** [flac2alac.py music], run in [/home/u]. *)
Definition relative_directory : Args.t :=
  Args.mk ["music"] Args.Default 1 false false true false None false false.

(** Two files that differ in case, one of them given twice. *)
Definition shelf : World.t :=
  World.mk (P "/m")
    [ (P "/m", World.Dir);
      (P "/m/B.flac", World.File 100%float 4096);
      (P "/m/a.flac", World.File 100%float 4096) ]
    [ ("ffmpeg", ffmpeg) ] quiet_encoder constant_decoder (fun _ => 0).

Definition shelf_inputs : list Path := [P "/m/a.flac"; P "/m/B.flac"; P "/m/a.flac"].

(** A broken file called [skip.flac]: the encoder exits with status 1 and
    names the file at the start of its diagnostic. *)
Definition rejecting_encoder (cmd : list string)
  : Result CompletedProcess * list (Path * World.Node) :=
  (OK (mkCompleted 1 "skip.flac: Invalid data found when processing input
"), []).

Definition broken : World.t :=
  World.mk (P "/home/u")
    [ (P "/home", World.Dir);
      (P "/home/u", World.Dir);
      (P "/home/u/skip.flac", World.File 100%float 12) ]
    [ ("ffmpeg", ffmpeg) ] rejecting_encoder constant_decoder (fun _ => 0).

(** [flac2alac.py skip.flac], run in [/home/u]. *)
Definition broken_file : Args.t :=
  Args.mk ["skip.flac"] Args.Default 1 false false true false None false false.

(** [flac2alac.py -w 4 music], run in [/home/u]. *)
Definition relative_directory_pool : Args.t :=
  Args.mk ["music"] Args.Default 4 false false true false None false false.

(** [flac2alac.py /home/u/music], run in [/home/u]. *)
Definition absolute_directory : Args.t :=
  Args.mk ["/home/u/music"] Args.Default 1 false false true false None false false.

(** [/home/u], where [alac] is a regular file. *)
Definition blocked : World.t :=
  World.mk (P "/home/u")
    [ (P "/home", World.Dir);
      (P "/home/u", World.Dir);
      (P "/home/u/music", World.Dir);
      (P "/home/u/music/a.flac", World.File 100%float 4096);
      (P "/home/u/alac", World.File 100%float 0) ]
    [ ("ffmpeg", ffmpeg) ] quiet_encoder constant_decoder (fun _ => 0).

(** [flac2alac.py music/a.flac], run in [/home/u]. *)
Definition one_file : Args.t :=
  Args.mk ["music/a.flac"] Args.Default 1 false false true false None false false.

(** A machine with no encoder installed. *)
Definition bare : World.t :=
  World.mk (P "/home/u")
    [ (P "/home", World.Dir);
      (P "/home/u", World.Dir);
      (P "/home/u/music", World.Dir);
      (P "/home/u/music/a.flac", World.File 100%float 4096) ]
    [] quiet_encoder constant_decoder (fun _ => 0).

(** A broken file called [b.flac]: the encoder exits with status 1. *)
Definition failing_encoder (cmd : list string)
  : Result CompletedProcess * list (Path * World.Node) :=
  (OK (mkCompleted 1 "Invalid data found when processing input
"), []).

(** [flac2alac.py music/sub/b.flac], run in [/home/u]. *)
Definition second_file : Args.t :=
  Args.mk ["music/sub/b.flac"] Args.Default 1 false false true false None false false.

(** [flac2alac.py alac]: a directory without FLAC files. *)
Definition nothing_to_do : Args.t :=
  Args.mk ["alac"] Args.Default 1 false false true false None false false.

(** An environment in which the destination is there when the program asks
    whether it exists and gone when the program asks for its times: the
    answers of a file system on which another process deletes the file in
    between.  Every other request is answered by an empty machine. *)
Definition vanishing : Handler unit :=
  fun R op =>
    match op in Op T return unit -> Result T * unit with
    | Which _ => fun w => (OK None, w)
    | Cwd => fun w => (OK (P "/"), w)
    | Resolve p => fun w => (OK p, w)
    | IsFile _ => fun w => (OK false, w)
    | IsDir _ => fun w => (OK false, w)
    | Exists _ => fun w => (OK true, w)
    | Stat p => fun w => (Err (World.enoent p), w)
    | RGlob _ => fun w => (OK [], w)
    | Mkdir _ => fun w => (OK tt, w)
    | Unlink p => fun w => (Err (World.enoent p), w)
    | Run _ => fun w => (OK (mkCompleted 0 ""), w)
    | Popen _ => fun w => (OK (mkPopen [] 0 ""), w)
    | Print _ _ => fun w => (OK tt, w)
    | NextCompleted _ => fun w => (OK 0, w)
    end.

(** As [vanishing], but every [stat] is refused: a permission error. *)
Definition denied : Handler unit :=
  fun R op =>
    match op in Op T return unit -> Result T * unit with
    | Stat p => fun w =>
        (Err (mkExn OSError ("[Errno 13] Permission denied: '" ++ PurePath.str p ++ "'")), w)
    | other => vanishing _ other
    end.

End Scenario.

(** ** Vocabulary of the properties *)

(** pathlib's order on paths, and the order of the paths folded to lower
    case, the key [main] sorts its report by. *)
Definition path_le (a b : Path) : Prop := PurePath.leb a b = true.

Definition folded_le (a b : Path) : Prop :=
  String.leb (Str.lower (PurePath.str a)) (Str.lower (PurePath.str b)) = true.

(** Where a collected file comes from: it was given, or [rglob] found it
    under a directory that was given. *)
Definition given_or_found (paths : list Path) (t : list Event) (f : Path) : Prop :=
  In f paths
  \/ exists p found, In p paths /\ In (ERGlob p (OK found)) t /\ In f found.

(** The requests that only read the file system's metadata. *)
Definition is_query (e : Event) : bool :=
  match e with EExists _ _ | EStat _ _ => true | _ => false end.

(** The last [n] events of a trace, and the events before them. *)
Definition final (n : nat) (t : list Event) : list Event :=
  skipn (List.length t - n) t.

Definition earlier (n : nat) (t : list Event) : list Event :=
  firstn (List.length t - n) t.

(** What a trace shows of a job that has passed conversion and, where it
    was asked for and possible, verification: the encoder ran and exited
    with status 0, and both decodings were made and gave the same digest. *)
Definition passed {hashlib : Hashlib} (src dst : Path) (opts : Options)
  (t : list Event) : Prop :=
  (exists cmd proc, In (ERun cmd (OK proc)) t /\ returncode proc = 0%Z)
  /\ (verify opts = true -> opt_truthy (ffmpeg_for_verify opts) = true ->
      exists p1 p2 d,
        In (EPopen (pcm_cmd (unwrap (ffmpeg_for_verify opts)) src) (OK p1)) t
        /\ In (EPopen (pcm_cmd (unwrap (ffmpeg_for_verify opts)) dst) (OK p2)) t
        /\ pcm_digest p1 = OK d /\ pcm_digest p2 = OK d).

(** A property of every event of a trace, given the events before it. *)
Fixpoint each_after (P : list Event -> Event -> Prop) (before t : list Event) : Prop :=
  match t with
  | [] => True
  | e :: rest => P before e /\ each_after P (before ++ [e])%list rest
  end.

(** The three situations in which a job deletes its destination, read off
    the events before the deletion.  In each the job has just been told
    that the destination exists.  (1) The backend is the fallback,
    overwrite is on and no subprocess has run yet.  (2) The encoder has
    exited with a non-zero status and the destination has size 0.  (3) The
    two decodings gave different digests. *)
Definition may_delete_destination {hashlib : Hashlib} (src dst : Path) (opts : Options)
  (detected : string * string) (before : list Event) : Prop :=
  (final 1 before = [EExists dst (OK true)]
   /\ fst detected <> "ffmpeg" /\ overwrite opts = true
   /\ Forall (fun e => is_subprocess e = false) before)
  \/ (exists cmd proc st,
        final 2 before = [EExists dst (OK true); EStat dst (OK st)]
        /\ st_size st = 0%Z
        /\ In (ERun cmd (OK proc)) before /\ returncode proc <> 0%Z)
  \/ (exists p1 p2 d1 d2,
        final 1 before = [EExists dst (OK true)]
        /\ In (EPopen (pcm_cmd (unwrap (ffmpeg_for_verify opts)) src) (OK p1)) before
        /\ In (EPopen (pcm_cmd (unwrap (ffmpeg_for_verify opts)) dst) (OK p2)) before
        /\ pcm_digest p1 = OK d1 /\ pcm_digest p2 = OK d2 /\ d1 <> d2).

(** What a job may ask the file system to change: its destination's
    directory to be made, and its destination to be deleted, the latter in
    one of the three situations. *)
Definition touches_only_destination {hashlib : Hashlib} (src dst : Path) (opts : Options)
  (detected : string * string) (before : list Event) (e : Event) : Prop :=
  match e with
  | EUnlink p _ => p = dst /\ p <> src /\ may_delete_destination src dst opts detected before
  | EMkdir p _ => p = PurePath.parent dst
  | _ => True
  end.

(** The warning [detect_converter] prints when it falls back. *)
Definition fallback_warned : Event := EPrint Stderr ("[WARN] " ++ fallback_warning).

(** The warning of a job that cannot verify. *)
Definition verify_skipped : Event := EPrint Stderr ("[WARN] " ++ verify_unavailable_warning).

(** The warning of a job that could not delete its source. *)
Definition delete_failed (src : Path) (e : Exn) : Event :=
  EPrint Stderr ("[WARN] " ++ "元ファイル削除に失敗: " ++ PurePath.str src
                 ++ " (" ++ exn_msg e ++ ")").

Definition gather_event (e : Event) : bool :=
  match e with
  | EIsFile _ _ | EIsDir _ _ | ERGlob _ _ | EPrint Stderr _ => true
  | _ => false
  end.

Definition not_eligible_warning (p : Path) : string :=
  "[WARN] " ++ "対象外: " ++ PurePath.str p.

Definition search_event (e : Event) : bool :=
  match e with
  | EWhich _ _ | EPrint Stderr _ => true
  | _ => false
  end.

(** The three counters of the report loop, read off its tests: the message
    is looked at before the success flag. *)
Definition counted_skip (r : JobResult) : bool := Str.startswith (job_msg r) "skip".

Definition counted_dry (r : JobResult) : bool :=
  negb (Str.startswith (job_msg r) "skip") && Str.startswith (job_msg r) "dry-run".

Definition counted_ok (r : JobResult) : bool :=
  negb (Str.startswith (job_msg r) "skip") && negb (Str.startswith (job_msg r) "dry-run")
  && job_success r.

Definition counted_failed (r : JobResult) : bool :=
  negb (Str.startswith (job_msg r) "skip") && negb (Str.startswith (job_msg r) "dry-run")
  && negb (job_success r).

Definition status_of (r : JobResult) : string :=
  if counted_skip r then "SKIP"
  else if counted_dry r then "DRY"
  else if counted_ok r then "OK"
  else "FAIL".

Definition count {A : Type} (f : A -> bool) (l : list A) : nat := List.length (filter f l).

(** What a program returns, when it returns, in whatever environment. *)
Definition post {A : Type} (p : Prog A) (Q : A -> Prop) : Prop :=
  forall (W : Type) (h : Handler W) (w : W) (a : A), outcome (run h p w) = OK a -> Q a.

Definition startup_event (e : Event) : bool :=
  match e with
  | ECwd _ | EWhich _ _ | EPrint Stderr _ => true
  | _ => false
  end.

(** The command a job runs its encoder with. *)
Definition encoder_cmd (src dst : Path) (opts : Options) (detected : string * string)
  : list string :=
  if String.eqb (fst detected) "ffmpeg"
  then build_ffmpeg_cmd (snd detected) src dst (overwrite opts) (keep_artwork opts)
  else build_afconvert_cmd (snd detected) src dst (overwrite opts).

(** What a job that failed at its encoder has not done: started a decoder,
    or deleted anything but its destination. *)
Definition stopped_at_encoder (dst : Path) (e : Event) : Prop :=
  match e with
  | EPopen _ _ => False
  | EUnlink p _ => p = dst
  | _ => True
  end.

(** The message of a job whose encoder run raised. *)
Definition caught_msg (bin_path : string) (e : Exn) : string :=
  if kind_eqb (exn_kind e) FileNotFoundError
  then "コマンドが見つかりません: " ++ bin_path
  else exn_msg e.

(** The order in which a job starts its subprocesses. *)
Definition starts_in_order {hashlib : Hashlib} (src dst : Path) (opts : Options)
  (detected : string * string) (before : list Event) (e : Event) : Prop :=
  let ff := unwrap (ffmpeg_for_verify opts) in
  match e with
  | ERun cmd _ =>
      cmd = encoder_cmd src dst opts detected
      /\ dry_run opts = false
      /\ In (EMkdir (PurePath.parent dst) (OK tt)) before
      /\ Forall (fun e' => is_subprocess e' = false) before
  | EPopen cmd _ =>
      verify opts = true
      /\ opt_truthy (ffmpeg_for_verify opts) = true
      /\ (exists c proc, In (ERun c (OK proc)) before /\ returncode proc = 0%Z)
      /\ ((cmd = pcm_cmd ff src
           /\ Forall (fun e' => match e' with EPopen _ _ => False | _ => True end) before)
          \/ (cmd = pcm_cmd ff dst
              /\ exists p d, final 1 before = [EPopen (pcm_cmd ff src) (OK p)]
                             /\ pcm_digest p = OK d))
  | _ => True
  end.

(** Counting in the trace of [gather_inputs]: the times [is_file] was asked
    of a path, the times it answered true, and the times a traversal found
    the path. *)
Definition asked_file (f : Path) (e : Event) : bool :=
  match e with
  | EIsFile p _ => PurePath.eqb f p
  | _ => false
  end.

Definition answered_file (f : Path) (e : Event) : bool :=
  match e with
  | EIsFile p (OK true) => PurePath.eqb f p
  | _ => false
  end.

Definition found_under (f : Path) (e : Event) : nat :=
  match e with
  | ERGlob _ (OK found) => count (PurePath.eqb f) found
  | _ => 0
  end.

(** The result of a job whose verification raised. *)
Definition verify_failed (src dst : Path) (e : Exn) : JobResult :=
  (src, Some dst, false, "verify失敗: " ++ exn_msg e).

(** What follows a decoder started by a job: if it could not be started,
    or the digest of its output could not be computed, the job ends there
    with the verify-failure result; otherwise [next], given the digest,
    says how the run goes on.  [rest] is the trace after the decoder was
    started. *)
Definition after_decoding {hashlib : Hashlib} (src dst : Path)
  (result : Result JobResult) (started : Result PopenProc) (rest : list Event)
  (next : string -> Prop) : Prop :=
  match started with
  | Err e => result = OK (verify_failed src dst e) /\ rest = []
  | OK proc =>
      match pcm_digest proc with
      | Err e => result = OK (verify_failed src dst e) /\ rest = []
      | OK digest => next digest
      end
  end.

(** How a job ends after a verification mismatch: it asks whether the
    destination exists and, if so, deletes it; nothing else follows. *)
Definition mismatch_ending (dst : Path) (rest : list Event) : Prop :=
  (exists r, rest = [EExists dst (OK true); EUnlink dst r])
  \/ rest = [EExists dst (OK false)]
  \/ exists e, rest = [EExists dst (Err e)].

(** The jobs of a list run one after the other, each from where the one
    before left the environment: what each returned or raised, and the
    requests they made. *)
Fixpoint outcomes_in_turn {W : Type} (h : Handler W) (jobs : list (Prog JobResult)) (w : W)
  : list (Result JobResult) :=
  match jobs with
  | [] => []
  | j :: rest => outcome (run h j w) :: outcomes_in_turn h rest (final_world (run h j w))
  end.

Fixpoint traces_in_turn {W : Type} (h : Handler W) (jobs : list (Prog JobResult)) (w : W)
  : list Event :=
  match jobs with
  | [] => []
  | j :: rest => (trace (run h j w) ++ traces_in_turn h rest (final_world (run h j w)))%list
  end.

(** What a program returns and the trace it leaves, when it returns, in
    an environment; and the same of the end of its trace. *)
Definition whole {W A : Type} (h : Handler W) (p : Prog A)
  (Q : A -> list Event -> Prop) : Prop :=
  forall (w : W) (a : A), outcome (run h p w) = OK a -> Q a (trace (run h p w)).

Definition ends {W A : Type} (h : Handler W) (p : Prog A)
  (Q : A -> list Event -> Prop) : Prop :=
  forall (w : W) (a : A),
    outcome (run h p w) = OK a ->
    exists before tail, trace (run h p w) = (before ++ tail)%list /\ Q a tail.

(** The lines of the report. *)
Definition report_line_of (r : JobResult) : Event :=
  EPrint Stdout (report_line (status_of r) r).

Definition targets_line (n : nat) : Event :=
  EPrint Stdout ("targets: " ++ str_of_nat n ++ " file(s)").

Definition done_line (c : Counts) : Event :=
  EPrint Stdout ("done: " ++ str_of_nat (ok c) ++ " ok, " ++ str_of_nat (skipped c)
                 ++ " skip, " ++ str_of_nat (failed c) ++ " fail").

(** The order of the report: ascending in the source path written out and
    folded to lower case. *)
Definition key_le {casefold : Casefold} (a b : JobResult) : Prop :=
  String.leb (report_key a) (report_key b) = true.

(** The counters after the report of [rs]. *)
Definition totals (rs : list JobResult) : Counts :=
  mkCounts (count counted_ok rs) (count counted_skip rs) (count counted_failed rs).

(** How a run of [main] that returns has ended: with the error of the
    encoder detection and the status 127; with the warning that there is
    nothing to convert and the status 0; or with the jobs and the report.
    In the last case the line that announces the number of files is
    followed by the requests of the jobs, dispatched from some state [w0]
    of the environment, by one line for each result, in order, and by the
    line of the totals; the status tells whether a result was counted as
    failed. *)
Definition main_ending {W : Type} {hashlib : Hashlib} {casefold : Casefold}
  (h : Handler W) (code : Z) (t : list Event) : Prop :=
  (code = 127%Z /\ exists msg, t = [EPrint Stderr ("[ERROR] " ++ msg)])
  \/ (code = 0%Z /\ t = [EPrint Stderr ("[WARN] " ++ no_input_warning)])
  \/ exists files opts detected root w0 results reported,
       let jobs := map (fun f => convert_one f opts detected root) files in
       let dispatch := if (workers opts =? 1)%Z then run_sequential jobs []
                       else run_pool jobs in
       files <> []
       /\ outcome (run h dispatch w0) = OK results
       /\ List.length results = List.length files
       /\ Permutation results reported
       /\ Sorted key_le reported
       /\ t = (targets_line (List.length files)
               :: trace (run h dispatch w0)
               ++ map report_line_of reported ++ [done_line (totals reported)])%list
       /\ code = (if Nat.eqb (count counted_failed reported) 0 then 0 else 1)%Z.

(** * Properties *)

(** ** The model against pathlib and [str] *)

Example of_str_relative :
  PurePath.of_str "music/sub/./b.flac" = mkPath false ["music"; "sub"; "b.flac"].
Proof. reflexivity. Qed.

Example of_str_absolute :
  PurePath.of_str "/home//u/" = mkPath true ["home"; "u"].
Proof. reflexivity. Qed.

Example suffix_examples :
  map PurePath.suffix_of_name ["a.flac"; "a.tar.gz"; ".hidden"; "a."; "noext"]
  = [".flac"; ".gz"; ""; ""; ""].
Proof. reflexivity. Qed.

Example with_suffix_example :
  PurePath.with_suffix (PurePath.of_str "music/a.b.FLAC") ".m4a"
  = OK (PurePath.of_str "music/a.b.m4a").
Proof. reflexivity. Qed.

Example strip_example :
  Str.strip (String (ascii_of_nat 10) " skip: x " ++ String (ascii_of_nat 9) "")
  = "skip: x".
Proof. reflexivity. Qed.

Example relative_to_parent :
  PurePath.relative_to (PurePath.of_str "/m/sub/a.flac") (PurePath.of_str "/m")
  = OK (PurePath.of_str "sub/a.flac").
Proof. reflexivity. Qed.

(** ** Strings and paths *)

Lemma substring_split (s : string) (i : nat) :
  i <= String.length s ->
  substring 0 i s ++ substring i (String.length s - i) s = s.
Proof.
  revert i. induction s as [| c s IH]; intros i Hi; simpl in *.
  - destruct i; [reflexivity | lia].
  - destruct i as [| i]; simpl.
    + f_equal. clear. induction s as [| c' s IH]; simpl; [reflexivity | now rewrite IH].
    + f_equal. apply IH. lia.
Qed.

Lemma substring_length (s : string) (i m : nat) :
  i + m <= String.length s -> String.length (substring i m s) = m.
Proof.
  revert i m. induction s as [| c s IH]; intros i m H; simpl in *.
  - destruct i, m; simpl; lia.
  - destruct i as [| i].
    + destruct m as [| m]; simpl; [reflexivity |]. f_equal. apply IH. simpl. lia.
    + apply IH. lia.
Qed.

Lemma lower_length (s : string) : String.length (Str.lower s) = String.length s.
Proof. induction s as [| c s IH]; simpl; [reflexivity | now rewrite IH]. Qed.

Lemma append_inv_head (a b c : string) : a ++ b = a ++ c -> b = c.
Proof. induction a as [| x a IH]; simpl; intros H; [exact H | injection H; auto]. Qed.

Lemma rfind_lt (c : ascii) (s : string) (i : nat) :
  Str.rfind c s = Some i -> i < String.length s.
Proof.
  revert i. induction s as [| a s IH]; simpl; intros i H; [discriminate |].
  destruct (Str.rfind c s) as [j |].
  - injection H as <-. specialize (IH j eq_refl). lia.
  - destruct (Ascii.eqb a c); [injection H as <-; lia | discriminate].
Qed.

Lemma supported_suffix (p : Path) :
  supported p = true -> Str.lower (PurePath.suffix p) = ".flac".
Proof.
  unfold supported, SUPPORTED_INPUT_EXTS. simpl. rewrite orb_false_r.
  intros H. apply String.eqb_eq in H. exact H.
Qed.

(** Replacing the extension of a FLAC file changes its name. *)
Lemma renamed_differs (n : string) :
  Str.lower (PurePath.suffix_of_name n) = ".flac" -> PurePath.renamed n OUTPUT_EXT <> n.
Proof.
  intros Hs E. unfold PurePath.renamed in E.
  assert (Hlen : String.length (PurePath.suffix_of_name n) = 5).
  { rewrite <- lower_length, Hs. reflexivity. }
  revert Hs E Hlen. unfold PurePath.suffix_of_name.
  destruct (Str.rfind "." n) as [i |] eqn:Hr; [| discriminate].
  pose proof (rfind_lt _ _ _ Hr) as Hi.
  destruct ((0 <? i)%nat && (i <? String.length n - 1)%nat); [| discriminate].
  intros Hs E Hlen.
  rewrite substring_length in Hlen by lia.
  assert (Hold : Str.truthy (substring i (String.length n - i) n) = true).
  { destruct (substring i (String.length n - i) n); [discriminate Hs | reflexivity]. }
  rewrite Hold in E. simpl in E.
  rewrite substring_length in E by lia.
  replace (String.length n - (String.length n - i)) with i in E by lia.
  assert (E' : substring 0 i n ++ OUTPUT_EXT
               = substring 0 i n ++ substring i (String.length n - i) n).
  { rewrite substring_split by lia. exact E. }
  apply append_inv_head in E'. rewrite <- E' in Hs. discriminate Hs.
Qed.

Lemma last_app_one {A : Type} (l : list A) (x d : A) : last (l ++ [x])%list d = x.
Proof.
  induction l as [| y l IH]; simpl; [reflexivity |]. rewrite IH.
  destruct (l ++ [x])%list eqn:E; [destruct l; discriminate | reflexivity].
Qed.

Lemma last_app_nonempty {A : Type} (l l' : list A) (d : A) :
  l' <> [] -> last (l ++ l')%list d = last l' d.
Proof.
  intros H. induction l as [| y l IH]; simpl; [reflexivity |].
  destruct (l ++ l')%list eqn:E; [| exact IH].
  destruct l; [simpl in E; contradiction | discriminate].
Qed.

Lemma strip_prefix_app (pre l rest : list string) :
  PurePath.strip_prefix pre l = Some rest -> l = (pre ++ rest)%list.
Proof.
  revert l. induction pre as [| a pre IH]; intros l H; simpl in *.
  - injection H as <-. reflexivity.
  - destruct l as [| b l]; [discriminate |].
    destruct (String.eqb a b) eqn:E; [| discriminate].
    apply String.eqb_eq in E. subst b. f_equal. apply IH. exact H.
Qed.

Lemma strip_prefix_self (pre rest : list string) :
  PurePath.strip_prefix pre (pre ++ rest)%list = Some rest.
Proof.
  induction pre as [| a pre IH]; simpl; [reflexivity |].
  rewrite String.eqb_refl. exact IH.
Qed.

Lemma with_suffix_name (p q : Path) (sfx : string) :
  PurePath.with_suffix p sfx = OK q ->
  PurePath.name p <> ""
  /\ PurePath.name q = PurePath.renamed (PurePath.name p) sfx
  /\ is_abs q = is_abs p
  /\ parts q = (removelast (parts p) ++ [PurePath.renamed (PurePath.name p) sfx])%list.
Proof.
  unfold PurePath.with_suffix.
  destruct (Str.truthy (PurePath.name p)) eqn:Hn; simpl; [| discriminate].
  intros H. injection H as <-. simpl. unfold PurePath.name at 2. simpl.
  rewrite last_app_one. repeat split.
  intros E. rewrite E in Hn. discriminate.
Qed.

(** The destination is always named after the source, with the extension
    replaced. *)
Lemma compute_output_path_name (src dst : Path) (opts : Options) (root : option Path) :
  compute_output_path src opts root = OK dst ->
  PurePath.name dst = PurePath.renamed (PurePath.name src) OUTPUT_EXT.
Proof.
  unfold compute_output_path.
  destruct (PurePath.with_suffix src OUTPUT_EXT) as [named | e] eqn:Hn; [| discriminate].
  apply with_suffix_name in Hn. destruct Hn as (Hne & Hname & _ & _).
  destruct (inplace opts).
  - intros H. injection H as <-. exact Hname.
  - destruct (output_dir opts) as [out |]; [| discriminate].
    destruct root as [root |].
    + destruct (PurePath.relative_to src root) as [rel | e] eqn:Hrel; [| discriminate].
      destruct (PurePath.with_suffix rel OUTPUT_EXT) as [rel' | e] eqn:Hrel'; [| discriminate].
      intros H. injection H as <-.
      apply with_suffix_name in Hrel'. destruct Hrel' as (Hrne & _ & Habs & Hparts).
      unfold PurePath.relative_to in Hrel.
      destruct (if Bool.eqb (is_abs src) (is_abs root)
                then PurePath.strip_prefix (parts root) (parts src) else None)
        as [rest |] eqn:Hsp; [| discriminate].
      injection Hrel as <-. simpl in *.
      destruct (Bool.eqb (is_abs src) (is_abs root)); [| discriminate].
      apply strip_prefix_app in Hsp.
      assert (Hrest : rest <> []).
      { intros ->. apply Hrne. reflexivity. }
      assert (Hlast : PurePath.name (mkPath false rest) = PurePath.name src).
      { unfold PurePath.name. simpl. rewrite Hsp. symmetry. now apply last_app_nonempty. }
      unfold PurePath.joinpath. rewrite Habs. simpl.
      unfold PurePath.name at 1. simpl. rewrite Hparts.
      rewrite app_assoc, last_app_one. rewrite Hlast. reflexivity.
    + intros H. injection H as <-. unfold PurePath.joinpath. simpl.
      unfold PurePath.name at 1. simpl. rewrite last_app_one. exact Hname.
Qed.

(** A job of [main] never has its source as its destination. *)
Lemma destination_is_not_source (src dst : Path) (opts : Options) (root : option Path) :
  supported src = true ->
  compute_output_path src opts root = OK dst ->
  dst <> src.
Proof.
  intros Hs Hd E. apply compute_output_path_name in Hd. rewrite E in Hd.
  apply supported_suffix in Hs.
  apply (renamed_differs (PurePath.name src)); [exact Hs | symmetry; exact Hd].
Qed.

(** ** Sorting *)

Section Sorting.

Variable A : Type.
Variable leb : A -> A -> bool.

Let le (a b : A) : Prop := leb a b = true.

Lemma insert_by_perm (x : A) (l : list A) : Permutation (x :: l) (insert_by leb x l).
Proof.
  induction l as [| y l IH]; simpl; [reflexivity |].
  destruct (leb x y); [reflexivity |].
  rewrite perm_swap. constructor. exact IH.
Qed.

Lemma sorted_by_perm (l : list A) : Permutation l (sorted_by leb l).
Proof.
  induction l as [| x l IH]; simpl; [constructor |].
  rewrite <- insert_by_perm. constructor. exact IH.
Qed.

Lemma sorted_by_in (l : list A) (x : A) : In x (sorted_by leb l) <-> In x l.
Proof.
  split; apply Permutation_in; [symmetry |]; apply sorted_by_perm.
Qed.

Hypothesis leb_total : forall a b, leb a b = true \/ leb b a = true.

Lemma insert_by_hd (x a : A) (l : list A) :
  le a x -> HdRel le a l -> HdRel le a (insert_by leb x l).
Proof.
  intros Hax Hl. destruct l as [| y l]; simpl.
  - constructor. exact Hax.
  - destruct (leb x y); constructor; [exact Hax |].
    inversion Hl; assumption.
Qed.

Lemma insert_by_sorted (x : A) (l : list A) :
  Sorted le l -> Sorted le (insert_by leb x l).
Proof.
  induction 1 as [| y l Hs IH Hhd]; simpl.
  - repeat constructor.
  - destruct (leb x y) eqn:E.
    + constructor; [constructor; assumption | constructor; exact E].
    + constructor; [exact IH |].
      apply insert_by_hd; [| exact Hhd].
      destruct (leb_total x y) as [H | H]; [congruence | exact H].
Qed.

Lemma sorted_by_sorted (l : list A) : Sorted le (sorted_by leb l).
Proof.
  induction l as [| x l IH]; simpl; [constructor |].
  apply insert_by_sorted. exact IH.
Qed.

End Sorting.

Lemma lex_compare_antisym (a b : list string) :
  PurePath.lex_compare a b = CompOpp (PurePath.lex_compare b a).
Proof.
  revert b. induction a as [| x a IH]; intros [| y b]; simpl; try reflexivity.
  rewrite (String.compare_antisym y x).
  destruct (String.compare x y); simpl; [apply IH | reflexivity | reflexivity].
Qed.

(** pathlib's order is total. *)
Lemma path_leb_total (a b : Path) : PurePath.leb a b = true \/ PurePath.leb b a = true.
Proof.
  unfold PurePath.leb.
  rewrite (lex_compare_antisym (PurePath.sort_key a) (PurePath.sort_key b)).
  destruct (PurePath.lex_compare (PurePath.sort_key b) (PurePath.sort_key a));
    simpl; auto.
Qed.

(** ** Running programs *)

Lemma run_bind {W A B : Type} (h : Handler W) (p : Prog A) (f : A -> Prog B) (w : W) :
  run h (bind p f) w =
  match run h p w with
  | (OK a, w1, t1) => let '(o, w2, t2) := run h (f a) w1 in (o, w2, (t1 ++ t2)%list)
  | (Err e, w1, t1) => (Err e, w1, t1)
  end.
Proof.
  revert w. induction p as [a | e | R op k IH]; intros w; simpl.
  - destruct (run h (f a) w) as [[o w2] t2]. reflexivity.
  - reflexivity.
  - destruct (h R op w) as [r w1]. rewrite IH.
    destruct (run h (k r) w1) as [[[a | e] w2] t1].
    + destruct (run h (f a) w2) as [[o w3] t2]. reflexivity.
    + reflexivity.
Qed.

Lemma run_try_except {W A : Type} (h : Handler W) (p : Prog A)
  (clauses : Exn -> option (Prog A)) (w : W) :
  run h (try_except p clauses) w =
  match run h p w with
  | (OK a, w1, t1) => (OK a, w1, t1)
  | (Err e, w1, t1) =>
      match clauses e with
      | Some q => let '(o, w2, t2) := run h q w1 in (o, w2, (t1 ++ t2)%list)
      | None => (Err e, w1, t1)
      end
  end.
Proof.
  revert w. induction p as [a | e | R op k IH]; intros w; simpl.
  - reflexivity.
  - destruct (clauses e) as [q |]; [| reflexivity].
    destruct (run h q w) as [[o w2] t2]. reflexivity.
  - destruct (h R op w) as [r w1]. rewrite IH.
    destruct (run h (k r) w1) as [[[a | e] w2] t1]; [reflexivity |].
    destruct (clauses e) as [q |]; [| reflexivity].
    destruct (run h q w2) as [[o w3] t2]. reflexivity.
Qed.

(** Symbolic execution of a program against an arbitrary handler: [answer]
    takes the handler's next answer (from a hypothesis, or by cases),
    [branch] splits on the test the program is waiting for, and [drive]
    repeats both until every run has reached its end. *)

Ltac answer h :=
  match goal with
  | H : h ?R ?op ?w = _ |- context [h ?R ?op ?w] => rewrite H
  | |- context [h unit (Print ?s ?l) ?w] =>
      let r := fresh "r" in let w' := fresh "w" in
      destruct (h unit (Print s l) w) as [r w']
  | |- context [h ?R ?op ?w] =>
      let r := fresh "r" in let e := fresh "e" in let w' := fresh "w" in
      let E := fresh "E" in
      destruct (h R op w) as [[r | e] w'] eqn:E
  end.

Ltac scrutinee x :=
  lazymatch x with
  | (if ?b then _ else _) => scrutinee b
  | match ?y with Go _ => _ | Return _ => _ end => scrutinee y
  | match ?y with OK _ => _ | Err _ => _ end => scrutinee y
  | match ?y with Some _ => _ | None => _ end => scrutinee y
  | negb ?b => scrutinee b
  | andb ?a _ => scrutinee a
  | _ => constr:(x)
  end.

Ltac blocker p :=
  lazymatch p with
  | bind ?q _ => blocker q
  | try_except ?q _ => blocker q
  | lift ?r => scrutinee r
  | (if ?b then _ else _) => scrutinee b
  | match ?x with Go _ => _ | Return _ => _ end => scrutinee x
  | match ?x with OK _ => _ | Err _ => _ end => scrutinee x
  | match ?x with Some _ => _ | None => _ end => scrutinee x
  end.

Ltac branch h :=
  match goal with
  | |- context [run h ?p _] =>
      let b := blocker p in
      let E := fresh "E" in
      destruct b eqn:E
  end.

Ltac drive h := repeat (simpl; first [answer h | branch h]).

Ltac open_job :=
  unfold convert_one, should_skip, ensure_parent_dir, compute_pcm_md5, perform, warn,
    or_else, except_kind, except_Exception.

(** ** The claims *)

#[local] Arguments String.append : simpl never.

(** C7.  [detect_converter] asks for the primary encoder (the explicit
    path if one is given, else the standard search for [ffmpeg]) and for
    the fallback [afconvert].  Whatever the environment answers: with the
    preference flag set and the fallback available it selects the
    fallback; otherwise the primary if it is available; otherwise the
    fallback, with a warning, if it is available; otherwise it raises the
    no-encoder error.  An explicit path counts as given when it is a
    non-empty string, the test the program makes; the primary is then
    available exactly when that path resolves, and its path is the explicit
    one. *)
Theorem detect_converter_selection {W : Type} (h : Handler W) (w w1 w2 : W)
  (prefer : bool) (explicit a1 a2 : option string) :
  h _ (Which (if opt_truthy explicit then unwrap explicit else "ffmpeg")) w = (OK a1, w1) ->
  h _ (Which "afconvert") w1 = (OK a2, w2) ->
  let primary := opt_truthy a1 in
  let primary_path := if opt_truthy explicit then unwrap explicit else unwrap a1 in
  let fallback := opt_truthy a2 in
  let res := run h (detect_converter prefer explicit) w in
  (prefer = true -> fallback = true ->
     outcome res = OK ("afconvert", unwrap a2) /\ ~ In fallback_warned (trace res)) /\
  (prefer && fallback = false -> primary = true ->
     outcome res = OK ("ffmpeg", primary_path) /\ ~ In fallback_warned (trace res)) /\
  (prefer && fallback = false -> primary = false -> fallback = true ->
     outcome res = OK ("afconvert", unwrap a2) /\ In fallback_warned (trace res)) /\
  (primary = false -> fallback = false ->
     outcome res = Err (mkExn RuntimeError no_encoder_msg)).
Proof.
  intros H1 H2. cbv zeta.
  unfold detect_converter, which_ffmpeg, which_afconvert, perform, warn, fallback_warned.
  destruct (opt_truthy explicit) eqn:Hex; simpl; rewrite H1; simpl; rewrite H2; simpl.
  - destruct prefer, (opt_truthy a2) eqn:Ha2, (opt_truthy a1) eqn:Ha1; simpl;
      try rewrite Hex; simpl;
      try (destruct (h unit _ w2) as [r w3]);
      unfold outcome, trace; simpl;
      repeat split; intros; try discriminate; try reflexivity;
      try (intros [F | [F | F]]; solve [discriminate F | exact F]);
      auto.
  - destruct prefer, (opt_truthy a2) eqn:Ha2, (opt_truthy a1) eqn:Ha1; simpl;
      try (destruct (h unit _ w2) as [r w3]);
      unfold outcome, trace; simpl;
      repeat split; intros; try discriminate; try reflexivity;
      try (intros [F | [F | F]]; solve [discriminate F | exact F]);
      auto.
Qed.

(** C7 at work: in [/home/u], with both encoders installed and no flag,
    [ffmpeg] is selected and nothing is printed. *)
Lemma detect_converter_selection_witness :
  outcome (run World.handle (detect_converter false None) Scenario.studio)
  = OK ("ffmpeg", Scenario.ffmpeg)
  /\ ~ In fallback_warned (trace (run World.handle (detect_converter false None) Scenario.studio)).
Proof.
  apply (detect_converter_selection World.handle Scenario.studio Scenario.studio
           Scenario.studio false None (Some Scenario.ffmpeg) (Some Scenario.afconvert));
    reflexivity.
Defined.

(** C4.  With overwrite off and the destination reported present: if the
    two [stat] calls answer and the destination is not older than the
    source, the job ends with the SKIP result, and the three queries are
    all it asked of its environment (so no subprocess was started); if
    either [stat] raises [FileNotFoundError], [should_skip] returns false,
    as it does for an absent destination, and the job does not end as
    SKIP. *)
Theorem skip_check {hashlib : Hashlib} {W : Type} (h : Handler W) (w w1 : W)
  (src dst : Path) (opts : Options) (detected : string * string)
  (input_root : option Path) :
  compute_output_path src opts input_root = OK dst ->
  overwrite opts = false ->
  h _ (Exists dst) w = (OK true, w1) ->
  let job := run h (convert_one src opts detected input_root) w in
  let check := run h (should_skip src dst (overwrite opts)) w in
  (forall (d s : stat_result) (w2 w3 : W),
      h _ (Stat dst) w1 = (OK d, w2) ->
      h _ (Stat src) w2 = (OK s, w3) ->
      PrimFloat.leb (st_mtime s) (st_mtime d) = true ->
      outcome job = OK (src, Some dst, true, skip_msg)
      /\ trace job = [EExists dst (OK true); EStat dst (OK d); EStat src (OK s)]
      /\ Forall (fun e => is_subprocess e = false) (trace job))
  /\ (forall (e : Exn) (w2 : W),
      exn_kind e = FileNotFoundError ->
      h _ (Stat dst) w1 = (Err e, w2) ->
      outcome check = OK false
      /\ outcome job <> OK (src, Some dst, true, skip_msg))
  /\ (forall (d : stat_result) (e : Exn) (w2 w3 : W),
      exn_kind e = FileNotFoundError ->
      h _ (Stat dst) w1 = (OK d, w2) ->
      h _ (Stat src) w2 = (Err e, w3) ->
      outcome check = OK false
      /\ outcome job <> OK (src, Some dst, true, skip_msg)).
Proof.
  intros Hdst Hov Hex. cbv zeta. rewrite Hov.
  destruct detected as [kind bin_path].
  repeat split.
  - open_job. rewrite Hdst, Hov. simpl. rewrite Hex. simpl.
    rewrite H. simpl. rewrite H0. simpl. rewrite H1. reflexivity.
  - open_job. rewrite Hdst, Hov. simpl. rewrite Hex. simpl.
    rewrite H. simpl. rewrite H0. simpl. rewrite H1. reflexivity.
  - open_job. rewrite Hdst, Hov. simpl. rewrite Hex. simpl.
    rewrite H. simpl. rewrite H0. simpl. rewrite H1. simpl.
    repeat constructor.
  - open_job. simpl. rewrite Hex. simpl. rewrite H0. simpl. rewrite H. reflexivity.
  - open_job. rewrite Hdst, Hov. simpl. rewrite Hex. simpl. rewrite H0. simpl.
    rewrite H. simpl.
    drive h; unfold outcome; simpl; intros F; inversion F.
  - open_job. simpl. rewrite Hex. simpl. rewrite H0. simpl. rewrite H1. simpl.
    rewrite H. reflexivity.
  - open_job. rewrite Hdst, Hov. simpl. rewrite Hex. simpl. rewrite H0. simpl.
    rewrite H1. simpl. rewrite H. simpl.
    drive h; unfold outcome; simpl; intros F; inversion F.
Qed.

(** C4 at work.  [a.flac] has an up-to-date [a.m4a], and the job is
    skipped after three queries.  And where the destination is gone by the
    time its times are asked for, the check answers false and the job goes
    on (to plan a dry run) instead of ending as SKIP. *)
Lemma skip_check_witness :
  (let job := run World.handle
                (convert_one (hashlib := plain_digest) Scenario.a_flac
                   (Scenario.options false false false false None)
                   ("ffmpeg", Scenario.ffmpeg) None) Scenario.studio in
   outcome job = OK (Scenario.a_flac, Some Scenario.a_m4a, true, skip_msg)
   /\ trace job = [EExists Scenario.a_m4a (OK true);
                   EStat Scenario.a_m4a (OK (mkStat 200%float 5000));
                   EStat Scenario.a_flac (OK (mkStat 100%float 4096))]
   /\ Forall (fun e => is_subprocess e = false) (trace job))
  /\ (outcome (run Scenario.vanishing
                 (should_skip Scenario.a_flac Scenario.a_m4a false) tt) = OK false
      /\ outcome (run Scenario.vanishing
                    (convert_one (hashlib := plain_digest) Scenario.a_flac
                       (Scenario.options false true false false None)
                       ("ffmpeg", Scenario.ffmpeg) None) tt)
         <> OK (Scenario.a_flac, Some Scenario.a_m4a, true, skip_msg)).
Proof.
  split.
  - apply (skip_check (hashlib := plain_digest) World.handle Scenario.studio Scenario.studio
             Scenario.a_flac Scenario.a_m4a (Scenario.options false false false false None)
             ("ffmpeg", Scenario.ffmpeg) None eq_refl eq_refl eq_refl)
      with (w2 := Scenario.studio) (w3 := Scenario.studio); reflexivity.
  - apply (skip_check (hashlib := plain_digest) Scenario.vanishing tt tt
             Scenario.a_flac Scenario.a_m4a (Scenario.options false true false false None)
             ("ffmpeg", Scenario.ffmpeg) None eq_refl eq_refl eq_refl)
      with (e := World.enoent Scenario.a_m4a) (w2 := tt); reflexivity.
Defined.

(** C5.  A job run with dry-run set asks its environment nothing but the
    queries of the skip check: it starts no subprocess, creates no
    directory and deletes nothing, whatever the other flags and whatever
    the environment answers; and when the skip check comes out false, it
    ends there with the DRY result. *)
Theorem dry_run_touches_nothing {hashlib : Hashlib} {W : Type} (h : Handler W) (w : W)
  (src : Path) (opts : Options) (detected : string * string)
  (input_root : option Path) :
  dry_run opts = true ->
  let job := run h (convert_one src opts detected input_root) w in
  Forall (fun e => is_query e = true /\ is_subprocess e = false
                   /\ is_mkdir e = false /\ is_unlink e = false) (trace job)
  /\ (forall (dst : Path) (w1 : W) (t : list Event),
        compute_output_path src opts input_root = OK dst ->
        run h (should_skip src dst (overwrite opts)) w = (OK false, w1, t) ->
        job = (OK (src, Some dst, true, dry_msg), w1, t)).
Proof.
  intros Hdry. cbv zeta. destruct detected as [kind bin_path]. split.
  - open_job. rewrite Hdry.
    drive h; unfold trace; simpl; repeat constructor.
  - intros dst w1 t Hdst Hskip.
    unfold convert_one. rewrite Hdst. simpl.
    rewrite run_bind, Hskip, Hdry. simpl. rewrite app_nil_r. reflexivity.
Qed.

(** C5 at work: [b.flac] has no conversion yet; with dry-run set (and
    verify and delete-original too) the job asks whether the
    destination exists and plans the conversion. *)
Lemma dry_run_touches_nothing_witness :
  run World.handle
    (convert_one (hashlib := plain_digest) Scenario.b_flac
       (Scenario.options false true true true (Some Scenario.ffmpeg))
       ("afconvert", Scenario.afconvert) None) Scenario.studio
  = (OK (Scenario.b_flac, Some Scenario.b_m4a, true, dry_msg), Scenario.studio,
     [EExists Scenario.b_m4a (OK false)]).
Proof.
  apply (dry_run_touches_nothing (hashlib := plain_digest) World.handle Scenario.studio
           Scenario.b_flac (Scenario.options false true true true (Some Scenario.ffmpeg))
           ("afconvert", Scenario.afconvert) None eq_refl);
    reflexivity.
Defined.

(** The run under study is kept apart from the property asked of it while
    the program is executed; [at_end] brings the property back, on a run
    that is by now an explicit outcome and trace. *)
Ltac focus_on_run h :=
  match goal with
  | |- context [run h ?p ?w] =>
      pattern (run h p w);
      match goal with |- ?P _ => set (asked := P) end
  end.

Ltac at_end :=
  match goal with Q := _ |- _ => subst Q end;
  cbv beta; unfold outcome, trace, final, earlier; simpl.

#[local] Arguments pcm_digest : simpl never.

(** Bookkeeping at the end of a run: hypotheses about membership in the
    trace are taken apart, equations between events are inverted, boolean
    tests are turned into equations. *)
Ltac unpack :=
  intros;
  repeat match goal with
    | H : @eq Event _ _ |- _ =>
        first [ discriminate H
              | injection H as ? ?; subst
              | injection H as ?; subst ]
    | H : _ \/ _ |- _ => destruct H
    | H : False |- _ => destruct H
    | H : _ /\ _ |- _ => destruct H
    | H : exists _, _ |- _ => destruct H
    | H : negb _ = true |- _ => apply negb_true_iff in H
    | H : negb _ = false |- _ => apply negb_false_iff in H
    | H : (_ =? _)%string = true |- _ => apply String.eqb_eq in H
    | H : (_ =? _)%string = false |- _ => apply String.eqb_neq in H
    | H : (_ =? _)%Z = true |- _ => apply Z.eqb_eq in H
    | H : (_ =? _)%Z = false |- _ => apply Z.eqb_neq in H
    | H1 : ?t = OK _, H2 : ?t = Err _ |- _ => rewrite H1 in H2; discriminate H2
    | H1 : ?t = OK ?a, H2 : ?t = OK ?b |- _ =>
        rewrite H1 in H2; injection H2 as ?; subst
    | H1 : ?t = Err ?a, H2 : ?t = Err ?b |- _ =>
        rewrite H1 in H2; injection H2 as ?; subst
    end.

Ltac member := simpl; repeat first [left; reflexivity | right].

Ltac done := first [reflexivity | discriminate | contradiction | congruence].

(** The trace is cut at the encoder's run. *)
Ltac cut_after n t :=
  exists (firstn n t); do 2 eexists; split; [simpl; reflexivity |].

Ltac cut_at_run :=
  match goal with
  | |- exists before r1 after, ?t = _ /\ _ =>
      first [ cut_after 0 t | cut_after 1 t | cut_after 2 t | cut_after 3 t
            | cut_after 4 t | cut_after 5 t | cut_after 6 t | cut_after 7 t ]
  end.

(** The digests computed in the run are put in the place of their
    computations. *)
Ltac settle :=
  repeat first
    [ progress cbv beta iota
    | match goal with
      | E : pcm_digest ?p = _ |- context [pcm_digest ?p] => rewrite E
      end ].

(** C6.  For a job with the verify option set.  (a) With a verification
    encoder resolved, if the two decodings give different digests, the job
    fails with the verify-mismatch message, and its last act is to ask
    whether the destination exists and, if so, to delete it, the result of
    the deletion being ignored.  (b) If a digest computation raises, at
    [Popen] or while the output is read or by a non-zero exit, the job
    fails with the verify-failure message carrying [str(e)].  (c) With no
    verification encoder resolved, a job whose encoder succeeded prints the
    warning, starts no decoder and returns the ok result.  (d) With a
    verification encoder resolved, a job whose encoder has exited with
    status 0 does verify: its next act is to start the decoder on the
    source; if that gives a digest, its next act is to start the decoder
    on the destination; if that gives a digest too, the job fails as in (a)
    when the digests differ and returns the ok result when they agree; and
    when either decoding fails, the job ends there as in (b). *)
Theorem verification {hashlib : Hashlib} {W : Type} (h : Handler W) (w : W)
  (src dst : Path) (opts : Options) (detected : string * string)
  (input_root : option Path) :
  compute_output_path src opts input_root = OK dst ->
  verify opts = true ->
  let job := run h (convert_one src opts detected input_root) w in
  let t := trace job in
  let ff := unwrap (ffmpeg_for_verify opts) in
  (opt_truthy (ffmpeg_for_verify opts) = true ->
   forall (p1 p2 : PopenProc) (d1 d2 : string),
     In (EPopen (pcm_cmd ff src) (OK p1)) t ->
     In (EPopen (pcm_cmd ff dst) (OK p2)) t ->
     pcm_digest p1 = OK d1 -> pcm_digest p2 = OK d2 -> d1 <> d2 ->
     outcome job = OK (src, Some dst, false, verify_mismatch_msg)
     /\ ((exists r, final 2 t = [EExists dst (OK true); EUnlink dst r])
         \/ final 1 t = [EExists dst (OK false)]
         \/ exists e, final 1 t = [EExists dst (Err e)]))
  /\ (opt_truthy (ffmpeg_for_verify opts) = true ->
      forall e : Exn,
        (In (EPopen (pcm_cmd ff src) (Err e)) t
         \/ In (EPopen (pcm_cmd ff dst) (Err e)) t
         \/ exists p, (In (EPopen (pcm_cmd ff src) (OK p)) t
                       \/ In (EPopen (pcm_cmd ff dst) (OK p)) t)
                      /\ pcm_digest p = Err e) ->
        outcome job = OK (src, Some dst, false, "verify失敗: " ++ exn_msg e))
  /\ (opt_truthy (ffmpeg_for_verify opts) = false ->
      forall (cmd : list string) (proc : CompletedProcess),
        In (ERun cmd (OK proc)) t -> returncode proc = 0%Z ->
        In verify_skipped t
        /\ Forall (fun e => is_subprocess e = true -> exists c r, e = ERun c r) t
        /\ outcome job = OK (src, Some dst, true, "ok"))
  /\ (opt_truthy (ffmpeg_for_verify opts) = true ->
      forall (cmd : list string) (proc : CompletedProcess),
        In (ERun cmd (OK proc)) t -> returncode proc = 0%Z ->
        exists before r1 after,
          t = (before ++ ERun cmd (OK proc) :: EPopen (pcm_cmd ff src) r1 :: after)%list
          /\ after_decoding src dst (outcome job) r1 after (fun d1 =>
               exists r2 after',
                 after = EPopen (pcm_cmd ff dst) r2 :: after'
                 /\ after_decoding src dst (outcome job) r2 after' (fun d2 =>
                      (d1 <> d2 ->
                       outcome job = OK (src, Some dst, false, verify_mismatch_msg)
                       /\ mismatch_ending dst after')
                      /\ (d1 = d2 ->
                          outcome job = OK (src, Some dst, true, "ok"))))).
Proof.
  intros Hdst Hver. cbv zeta. destruct detected as [kind bin_path].
  unfold verify_skipped, after_decoding, mismatch_ending, verify_failed.
  focus_on_run h. open_job. rewrite Hdst, Hver.
  drive h; at_end.
  all: split; [| split; [| split]].
  all: unpack; try done.
  all: try solve [member].
  all: try solve [ left; eexists; reflexivity
                 | right; left; reflexivity
                 | right; right; eexists; reflexivity ].
  all: try solve [repeat split; try done; try solve [member];
                  repeat constructor; intros; try discriminate; eauto].
  all: cut_at_run.
  all: settle.
  all: try solve [split; reflexivity].
  all: do 2 eexists; split; [reflexivity |].
  all: settle.
  all: try solve [split; reflexivity].
  all: split; intros; try done.
  all: split; [reflexivity |].
  all: solve [ left; eexists; reflexivity
             | right; left; reflexivity
             | right; right; eexists; reflexivity ].
Qed.

(** C6 at work: the decoder gives the two files different contents; the
    job fails with the mismatch message and asks after the destination
    (which the encoder of the scenario never wrote) last. *)
Lemma verification_witness :
  let job := run World.handle
               (convert_one (hashlib := plain_digest) Scenario.b_flac
                  (Scenario.options false false false true (Some Scenario.ffmpeg))
                  ("ffmpeg", Scenario.ffmpeg) None)
               (Scenario.home Scenario.quiet_encoder Scenario.naming_decoder) in
  outcome job = OK (Scenario.b_flac, Some Scenario.b_m4a, false, verify_mismatch_msg)
  /\ ((exists r, final 2 (trace job) = [EExists Scenario.b_m4a (OK true);
                                         EUnlink Scenario.b_m4a r])
      \/ final 1 (trace job) = [EExists Scenario.b_m4a (OK false)]
      \/ exists e, final 1 (trace job) = [EExists Scenario.b_m4a (Err e)]).
Proof.
  pose proof (verification (hashlib := plain_digest) World.handle
                (Scenario.home Scenario.quiet_encoder Scenario.naming_decoder)
                Scenario.b_flac Scenario.b_m4a
                (Scenario.options false false false true (Some Scenario.ffmpeg))
                ("ffmpeg", Scenario.ffmpeg) None eq_refl eq_refl) as H.
  cbv zeta in H. destruct H as [mismatch _]. cbv zeta.
  apply (mismatch eq_refl
           (mkPopen [OK (list_byte_of_string "/home/u/music/sub/b.flac")] 0 "")
           (mkPopen [OK (list_byte_of_string "/home/u/alac/b.m4a")] 0 "")
           "/home/u/music/sub/b.flac" "/home/u/alac/b.m4a");
    [ vm_compute; tauto | vm_compute; tauto | reflexivity | reflexivity | discriminate ].
Defined.

(** C6 at work: the decoder exits with status 1, and the job fails with
    what the decoder wrote to its standard error. *)
Example verification_failure :
  outcome (run World.handle
             (convert_one (hashlib := plain_digest) Scenario.b_flac
                (Scenario.options false false false true (Some Scenario.ffmpeg))
                ("ffmpeg", Scenario.ffmpeg) None)
             (Scenario.home Scenario.quiet_encoder Scenario.failing_decoder))
  = OK (Scenario.b_flac, Some Scenario.b_m4a, false,
        "verify失敗: Invalid data found when processing input").
Proof. reflexivity. Qed.

(** C6 at work: no encoder to verify with; the job warns and succeeds. *)
Example verification_unavailable :
  let job := run World.handle
               (convert_one (hashlib := plain_digest) Scenario.b_flac
                  (Scenario.options false false false true None)
                  ("afconvert", Scenario.afconvert) None) Scenario.studio in
  outcome job = OK (Scenario.b_flac, Some Scenario.b_m4a, true, "ok")
  /\ In verify_skipped (trace job).
Proof. vm_compute. tauto. Qed.

Ltac units := repeat match goal with u : unit |- _ => destruct u end.

(** C9.  In the run of a job on an eligible source, a request to delete
    the source is made only with delete-original set, and only as the last
    act of a job that has passed conversion and, where asked for and
    possible, verification; the job then returns the ok result, whether
    the deletion succeeds or raises, and in the latter case the only
    thing that follows is the warning. *)
Theorem source_deleted_last {hashlib : Hashlib} {W : Type} (h : Handler W) (w : W)
  (src dst : Path) (opts : Options) (detected : string * string)
  (input_root : option Path) :
  supported src = true ->
  compute_output_path src opts input_root = OK dst ->
  let job := run h (convert_one src opts detected input_root) w in
  let t := trace job in
  forall r : Result unit,
    In (EUnlink src r) t ->
    delete_original opts = true
    /\ outcome job = OK (src, Some dst, true, "ok")
    /\ ((final 1 t = [EUnlink src (OK tt)] /\ passed src dst opts (earlier 1 t))
        \/ exists e, final 2 t = [EUnlink src (Err e); delete_failed src e]
                     /\ passed src dst opts (earlier 2 t)).
Proof.
  intros Hsup Hdst. cbv zeta.
  pose proof (destination_is_not_source _ _ _ _ Hsup Hdst) as Hne.
  destruct detected as [kind bin_path].
  unfold delete_failed, passed.
  focus_on_run h. open_job. rewrite Hdst.
  drive h; at_end.
  all: unpack; try done.
  all: units; split; [first [reflexivity | assumption] | split; [reflexivity |]].
  all: first [ left; split; [reflexivity |]
             | right; eexists; split; [reflexivity |] ].
  all: (split; [do 2 eexists; split; [member | assumption] |]).
  all: intros; try done.
  all: do 3 eexists; repeat split; [member | member | eassumption | congruence].
Qed.

(** C9 at work: conversion and verification pass, the source has vanished
    in the meantime, its deletion raises; the job warns and returns ok. *)
Lemma source_deleted_last_witness :
  let job := run World.handle
               (convert_one (hashlib := plain_digest) Scenario.gone_flac
                  (Scenario.options true false true true (Some Scenario.ffmpeg))
                  ("afconvert", Scenario.afconvert) None) Scenario.studio in
  delete_original (Scenario.options true false true true (Some Scenario.ffmpeg)) = true
  /\ outcome job = OK (Scenario.gone_flac, Some Scenario.gone_m4a, true, "ok")
  /\ ((final 1 (trace job) = [EUnlink Scenario.gone_flac (OK tt)]
       /\ passed (hashlib := plain_digest) Scenario.gone_flac Scenario.gone_m4a
            (Scenario.options true false true true (Some Scenario.ffmpeg))
            (earlier 1 (trace job)))
      \/ exists e,
          final 2 (trace job) = [EUnlink Scenario.gone_flac (Err e);
                                 delete_failed Scenario.gone_flac e]
          /\ passed (hashlib := plain_digest) Scenario.gone_flac Scenario.gone_m4a
               (Scenario.options true false true true (Some Scenario.ffmpeg))
               (earlier 2 (trace job))).
Proof.
  apply (source_deleted_last (hashlib := plain_digest) World.handle Scenario.studio
           Scenario.gone_flac Scenario.gone_m4a
           (Scenario.options true false true true (Some Scenario.ffmpeg))
           ("afconvert", Scenario.afconvert) None eq_refl eq_refl
           (Err (World.enoent Scenario.gone_flac))).
  vm_compute. tauto.
Defined.

(** C10.  In the run of a job on an eligible source with delete-original
    off, whatever the environment answers: the only directory the job asks
    to be made is the destination's; the only file it asks to be deleted
    is the destination, which is not the source; and it asks for that only
    in the three situations of [may_delete_destination].  The source is
    named in no request that changes the file system.  (What the encoder
    does with the files it is given is the encoder's.) *)
Theorem source_untouched {hashlib : Hashlib} {W : Type} (h : Handler W) (w : W)
  (src dst : Path) (opts : Options) (detected : string * string)
  (input_root : option Path) :
  supported src = true ->
  delete_original opts = false ->
  compute_output_path src opts input_root = OK dst ->
  each_after (touches_only_destination src dst opts detected) []
    (trace (run h (convert_one src opts detected input_root) w)).
Proof.
  intros Hsup Hdel Hdst.
  pose proof (destination_is_not_source _ _ _ _ Hsup Hdst) as Hne.
  destruct detected as [kind bin_path].
  unfold touches_only_destination, may_delete_destination.
  focus_on_run h. open_job. rewrite Hdst, Hdel.
  drive h; at_end.
  all: unpack; repeat split; try done.
  all: first
    [ solve [left; repeat split; try done; repeat constructor]
    | solve [right; left; do 3 eexists; repeat split;
             first [reflexivity | eassumption | member]]
    | solve [right; right; do 4 eexists; repeat split;
             first [reflexivity | eassumption | member]] ].
Qed.

(** C10 at work: the fallback backend with overwrite on finds the old
    [a.m4a] and deletes it before it encodes; [a.flac] is left alone. *)
Lemma source_untouched_witness :
  each_after
    (touches_only_destination (hashlib := plain_digest) Scenario.a_flac Scenario.a_m4a
       (Scenario.options true false false true (Some Scenario.ffmpeg))
       ("afconvert", Scenario.afconvert)) []
    [EMkdir (Scenario.P "/home/u/alac") (OK tt);
     EExists Scenario.a_m4a (OK true);
     EUnlink Scenario.a_m4a (OK tt);
     ERun (build_afconvert_cmd Scenario.afconvert Scenario.a_flac Scenario.a_m4a true)
       (OK (mkCompleted 0 ""));
     EPopen (pcm_cmd Scenario.ffmpeg Scenario.a_flac) (Scenario.constant_decoder []);
     EPopen (pcm_cmd Scenario.ffmpeg Scenario.a_m4a) (Scenario.constant_decoder [])].
Proof.
  exact (source_untouched (hashlib := plain_digest) World.handle Scenario.studio
           Scenario.a_flac Scenario.a_m4a
           (Scenario.options true false false true (Some Scenario.ffmpeg))
           ("afconvert", Scenario.afconvert) None eq_refl eq_refl eq_refl).
Defined.

(** ** Collecting the inputs *)

(** What [gather_found] adds to the files collected so far. *)
Lemma gather_found_spec {W : Type} (h : Handler W) (found : list Path) :
  forall (files : list Path) (w : W) (out : list Path) (w' : W) (t : list Event),
    run h (gather_found found files) w = (OK out, w', t) ->
    exists new,
      out = (files ++ new)%list
      /\ (forall f, In f new ->
            supported f = true /\ In (EIsFile f (OK true)) t /\ In f found)
      /\ (forall f, supported f = true -> In (EIsFile f (OK true)) t -> In f new)
      /\ (forall p r, ~ In (ERGlob p r) t).
Proof.
  induction found as [| f rest IH]; intros files w out w' t Hrun; simpl in Hrun.
  - injection Hrun as <- _ <-. exists []. rewrite app_nil_r.
    split; [reflexivity |]. split; [| split]; intros; simpl in *; tauto.
  - destruct (h bool (IsFile f) w) as [[b | e] w1]; simpl in Hrun.
    + destruct (b && supported f) eqn:Hb.
      * destruct (run h (gather_found rest (files ++ [f])) w1) as [[o w2] t2] eqn:Hr.
        injection Hrun as -> _ <-.
        apply IH in Hr. destruct Hr as (new & -> & Hs & Hc & Hg).
        apply andb_prop in Hb. destruct Hb as [-> Hsup].
        exists (f :: new). rewrite <- app_assoc. split; [reflexivity |].
        split; [| split].
        -- intros g [<- | H].
           ++ repeat split; [exact Hsup | left; reflexivity | left; reflexivity].
           ++ destruct (Hs _ H) as (H1 & H2 & H3).
              repeat split; [exact H1 | right; exact H2 | right; exact H3].
        -- intros g Hg1 [Hg2 | Hg2]; [left; congruence | right; apply Hc; assumption].
        -- intros p r [F | F]; [discriminate F | exact (Hg _ _ F)].
      * destruct (run h (gather_found rest files) w1) as [[o w2] t2] eqn:Hr.
        injection Hrun as -> _ <-.
        apply IH in Hr. destruct Hr as (new & -> & Hs & Hc & Hg).
        exists new. split; [reflexivity |].
        split; [| split].
        -- intros g H. destruct (Hs _ H) as (H1 & H2 & H3).
           repeat split; [exact H1 | right; exact H2 | right; exact H3].
        -- intros g Hg1 [Hg2 | Hg2]; [| apply Hc; assumption].
           injection Hg2 as -> ->. rewrite Hg1 in Hb. discriminate Hb.
        -- intros p r [F | F]; [discriminate F | exact (Hg _ _ F)].
    + discriminate Hrun.
Qed.

Lemma gather_paths_spec {W : Type} (h : Handler W) (paths : list Path) :
  forall (files : list Path) (w : W) (out : list Path) (w' : W) (t : list Event),
    run h (gather_paths paths files) w = (OK out, w', t) ->
    exists new,
      out = (files ++ new)%list
      /\ (forall f, In f new ->
            supported f = true /\ In (EIsFile f (OK true)) t /\ given_or_found paths t f)
      /\ (forall f, supported f = true -> In (EIsFile f (OK true)) t -> In f new).
Proof.
  induction paths as [| p rest IH]; intros files w out w' t Hrun; simpl in Hrun.
  - injection Hrun as <- _ <-. exists []. rewrite app_nil_r.
    split; [reflexivity |]. split; intros; simpl in *; tauto.
  - destruct (h bool (IsFile p) w) as [[b | e] w1]; simpl in Hrun; [| discriminate Hrun].
    destruct (b && supported p) eqn:Hb.
    + destruct (run h (gather_paths rest (files ++ [p])) w1) as [[o w2] t2] eqn:Hr.
      injection Hrun as -> _ <-.
      apply IH in Hr. destruct Hr as (new & -> & Hs & Hc).
      apply andb_prop in Hb. destruct Hb as [-> Hsup].
      exists (p :: new). rewrite <- app_assoc. split; [reflexivity |].
      split.
      * intros f [<- | Hf].
        -- repeat split; [exact Hsup | left; reflexivity | left; left; reflexivity].
        -- destruct (Hs _ Hf) as (H1 & H2 & H3). repeat split; [exact H1 | right; exact H2 |].
           destruct H3 as [H3 | (q & found & Hq & Hg & Hfound)].
           ++ left; right; exact H3.
           ++ right. exists q, found. repeat split; [right; exact Hq | right; exact Hg | exact Hfound].
      * intros g Hg1 [Hg2 | Hg2]; [left; congruence | right; apply Hc; assumption].
    + simpl in Hrun.
      destruct (h bool (IsDir p) w1) as [[d | e] w2]; simpl in Hrun; [| discriminate Hrun].
      assert (Hnot : forall g, supported g = true -> EIsFile p (OK b) <> EIsFile g (OK true)).
      { intros g Hg1 Hg2. injection Hg2 as -> ->. rewrite Hg1 in Hb. discriminate Hb. }
      destruct d; simpl in Hrun.
      * destruct (h (list Path) (RGlob p) w2) as [[found | e] w3]; simpl in Hrun;
          [| discriminate Hrun].
        rewrite run_bind in Hrun.
        destruct (run h (gather_found found files) w3) as [[[files' | e] w4] t1] eqn:Hf;
          [| discriminate Hrun].
        destruct (run h (gather_paths rest files') w4) as [[o w5] t2] eqn:Hr.
        injection Hrun as -> _ <-.
        apply gather_found_spec in Hf. destruct Hf as (new1 & -> & Hs1 & Hc1 & Hg1).
        apply IH in Hr. destruct Hr as (new2 & -> & Hs2 & Hc2).
        exists (new1 ++ new2)%list. rewrite <- app_assoc. split; [reflexivity |].
        split.
        -- intros f Hf. apply in_app_or in Hf. destruct Hf as [Hf | Hf].
           ++ destruct (Hs1 _ Hf) as (H1 & H2 & H3).
              repeat split; [exact H1 | |].
              ** do 3 right. apply in_or_app. left. exact H2.
              ** right. exists p, found.
                 repeat split; [left; reflexivity | | exact H3].
                 do 2 right. left. reflexivity.
           ++ destruct (Hs2 _ Hf) as (H1 & H2 & H3).
              repeat split; [exact H1 | |].
              ** do 3 right. apply in_or_app. right. exact H2.
              ** destruct H3 as [H3 | (q & fq & Hq & Hg & Hfq)]; [left; right; exact H3 |].
                 right. exists q, fq. repeat split; [right; exact Hq | | exact Hfq].
                 do 3 right. apply in_or_app. right. exact Hg.
        -- intros g Hsup [Hg | [Hg | [Hg | Hg]]].
           ++ exfalso. exact (Hnot g Hsup Hg).
           ++ discriminate Hg.
           ++ discriminate Hg.
           ++ apply in_app_or in Hg. apply in_or_app.
              destruct Hg as [Hg | Hg]; [left; apply Hc1 | right; apply Hc2]; assumption.
      * destruct (h unit (Print Stderr ("[WARN] " ++ "対象外: " ++ PurePath.str p)) w2)
          as [u w3].
        destruct (run h (gather_paths rest files) w3) as [[o w4] t2] eqn:Hr.
        injection Hrun as -> _ <-.
        apply IH in Hr. destruct Hr as (new & -> & Hs & Hc).
        exists new. split; [reflexivity |].
        split.
        -- intros f Hf. destruct (Hs _ Hf) as (H1 & H2 & H3).
           repeat split; [exact H1 | do 3 right; exact H2 |].
           destruct H3 as [H3 | (q & fq & Hq & Hg & Hfq)]; [left; right; exact H3 |].
           right. exists q, fq. repeat split; [right; exact Hq | do 3 right; exact Hg | exact Hfq].
        -- intros g Hsup [Hg | [Hg | [Hg | Hg]]].
           ++ exfalso. exact (Hnot g Hsup Hg).
           ++ discriminate Hg.
           ++ discriminate Hg.
           ++ apply Hc; assumption.
Qed.

Lemma path_eqb_eq (a b : Path) : PurePath.eqb a b = true <-> a = b.
Proof.
  unfold PurePath.eqb. destruct a as [ia pa], b as [ib pb]. simpl. split.
  - intros H. apply andb_prop in H. destruct H as [H1 H2].
    apply Bool.eqb_prop in H1.
    destruct (list_eq_dec string_dec pa pb); [| discriminate]. now subst.
  - intros H. injection H as -> ->. rewrite Bool.eqb_reflx.
    destruct (list_eq_dec string_dec pb pb); [reflexivity | contradiction].
Qed.

Lemma count_app {A : Type} (f : A -> bool) (l l' : list A) :
  count f (l ++ l')%list = count f l + count f l'.
Proof. unfold count. now rewrite filter_app, length_app. Qed.

Lemma count_perm {A : Type} (f : A -> bool) (l l' : list A) :
  Permutation l l' -> count f l = count f l'.
Proof.
  unfold count. induction 1 as [| x l l' _ IH | x y l | l l' l'' _ IH1 _ IH2]; simpl.
  - reflexivity.
  - destruct (f x); simpl; now rewrite IH.
  - destruct (f x), (f y); reflexivity.
  - now rewrite IH1.
Qed.

(** One turn of a loop of [gather_inputs]: [is_file] is asked of [g], and
    [g] is appended if the answer is true and [g] is eligible. *)
Lemma tally_is_file (f g : Path) (b : bool) :
  count (PurePath.eqb f) (if b && supported g then [g] else [])
  = if supported f then count (answered_file f) [EIsFile g (OK b)] else 0.
Proof.
  unfold count. simpl.
  destruct (PurePath.eqb f g) eqn:E.
  - apply path_eqb_eq in E. subst g.
    destruct b, (supported f); simpl; try rewrite (proj2 (path_eqb_eq f f) eq_refl);
      reflexivity.
  - destruct b, (supported g), (supported f); simpl; try rewrite E; reflexivity.
Qed.

Lemma gather_found_count {W : Type} (h : Handler W) (found : list Path) :
  forall (files : list Path) (w : W) (out : list Path) (w' : W) (t : list Event),
    run h (gather_found found files) w = (OK out, w', t) ->
    exists new,
      out = (files ++ new)%list
      /\ (forall f, count (PurePath.eqb f) new
                    = if supported f then count (answered_file f) t else 0)
      /\ (forall f, count (asked_file f) t = count (PurePath.eqb f) found)
      /\ (forall f, list_sum (map (found_under f) t) = 0).
Proof.
  induction found as [| g rest IH]; intros files w out w' t Hrun; simpl in Hrun.
  - injection Hrun as <- _ <-. exists []. rewrite app_nil_r.
    split; [reflexivity |]. split; [| split]; intros f; simpl;
      try destruct (supported f); reflexivity.
  - destruct (h bool (IsFile g) w) as [[b | e] w1]; simpl in Hrun; [| discriminate Hrun].
    assert (Hstep : exists new1,
               new1 = (if b && supported g then [g] else [])
               /\ exists o w2 t2,
                    run h (gather_found rest (files ++ new1)) w1 = (o, w2, t2)
                    /\ (o, w2, EIsFile g (OK b) :: t2) = (OK out, w', t)).
    { eexists. split; [reflexivity |].
      destruct (b && supported g).
      - destruct (run h (gather_found rest (files ++ [g])) w1) as [[o w2] t2].
        do 3 eexists. split; [reflexivity | exact Hrun].
      - rewrite app_nil_r.
        destruct (run h (gather_found rest files) w1) as [[o w2] t2].
        do 3 eexists. split; [reflexivity | exact Hrun]. }
    destruct Hstep as (new1 & Hnew1 & o & w2 & t2 & Hr & Heq).
    injection Heq as -> -> <-.
    apply IH in Hr. destruct Hr as (new & -> & Hc & Ha & Hg).
    exists (new1 ++ new)%list. rewrite app_assoc. split; [reflexivity |].
    split; [| split].
    + intros f. rewrite count_app, Hc, Hnew1, tally_is_file.
      change (EIsFile g (OK b) :: t2) with ([EIsFile g (OK b)] ++ t2)%list.
      rewrite count_app. destruct (supported f); reflexivity.
    + intros f.
      change (EIsFile g (OK b) :: t2) with ([EIsFile g (OK b)] ++ t2)%list.
      change (g :: rest) with ([g] ++ rest)%list.
      rewrite !count_app, Ha. unfold count. simpl.
      destruct (PurePath.eqb f g); reflexivity.
    + intros f. simpl. apply Hg.
Qed.

Lemma gather_paths_count {W : Type} (h : Handler W) (paths : list Path) :
  forall (files : list Path) (w : W) (out : list Path) (w' : W) (t : list Event),
    run h (gather_paths paths files) w = (OK out, w', t) ->
    exists new,
      out = (files ++ new)%list
      /\ (forall f, count (PurePath.eqb f) new
                    = if supported f then count (answered_file f) t else 0)
      /\ (forall f, count (asked_file f) t
                    = count (PurePath.eqb f) paths + list_sum (map (found_under f) t)).
Proof.
  induction paths as [| p rest IH]; intros files w out w' t Hrun; simpl in Hrun.
  - injection Hrun as <- _ <-. exists []. rewrite app_nil_r.
    split; [reflexivity |]. split; intros f; simpl;
      try destruct (supported f); reflexivity.
  - destruct (h bool (IsFile p) w) as [[b | e] w1]; simpl in Hrun; [| discriminate Hrun].
    assert (Hcons : forall (x : Event) (l : list Event), x :: l = ([x] ++ l)%list)
      by reflexivity.
    assert (Hp : forall f, count (PurePath.eqb f) (p :: rest)
                           = count (asked_file f) [EIsFile p (OK b)]
                             + count (PurePath.eqb f) rest).
    { intros f. change (p :: rest) with ([p] ++ rest)%list. rewrite count_app.
      unfold count. simpl. destruct (PurePath.eqb f p); reflexivity. }
    destruct (b && supported p) eqn:Hb.
    + destruct (run h (gather_paths rest (files ++ [p])) w1) as [[o w2] t2] eqn:Hr.
      injection Hrun as -> _ <-.
      apply IH in Hr. destruct Hr as (new & -> & Hc & Ha).
      exists (p :: new). rewrite <- app_assoc. split; [reflexivity |].
      split; intros f.
      * change (p :: new) with ([p] ++ new)%list.
        rewrite (Hcons (EIsFile p (OK b))), !count_app, Hc.
        pose proof (tally_is_file f p b) as Ht. rewrite Hb in Ht. rewrite Ht.
        destruct (supported f); reflexivity.
      * rewrite (Hcons (EIsFile p (OK b))), count_app, Ha, Hp. simpl. lia.
    + simpl in Hrun.
      destruct (h bool (IsDir p) w1) as [[d | e] w2]; simpl in Hrun; [| discriminate Hrun].
      assert (Hnone : forall f,
                 (if supported f then count (answered_file f) [EIsFile p (OK b)] else 0) = 0).
      { intros f. pose proof (tally_is_file f p b) as Ht. rewrite Hb in Ht.
        rewrite <- Ht. reflexivity. }
      destruct d; simpl in Hrun.
      * destruct (h (list Path) (RGlob p) w2) as [[found | e] w3]; simpl in Hrun;
          [| discriminate Hrun].
        rewrite run_bind in Hrun.
        destruct (run h (gather_found found files) w3) as [[[files' | e] w4] t1] eqn:Hf;
          [| discriminate Hrun].
        destruct (run h (gather_paths rest files') w4) as [[o w5] t2] eqn:Hr.
        injection Hrun as -> _ <-.
        apply gather_found_count in Hf. destruct Hf as (new1 & -> & Hc1 & Ha1 & Hg1).
        apply IH in Hr. destruct Hr as (new2 & -> & Hc2 & Ha2).
        exists (new1 ++ new2)%list. rewrite <- app_assoc. split; [reflexivity |].
        split; intros f.
        -- rewrite count_app, Hc1, Hc2.
           rewrite (Hcons (EIsFile p (OK b))), (Hcons (EIsDir p (OK true))),
             (Hcons (ERGlob p (OK found))), !count_app.
           specialize (Hnone f). destruct (supported f); simpl in *; lia.
        -- rewrite (Hcons (EIsFile p (OK b))), (Hcons (EIsDir p (OK true))),
             (Hcons (ERGlob p (OK found))), !count_app, !map_app, !list_sum_app.
           rewrite Ha1, Ha2, Hg1, Hp. simpl. lia.
      * destruct (h unit (Print Stderr ("[WARN] " ++ "対象外: " ++ PurePath.str p)) w2)
          as [u w3].
        destruct (run h (gather_paths rest files) w3) as [[o w4] t2] eqn:Hr.
        injection Hrun as -> _ <-.
        apply IH in Hr. destruct Hr as (new & -> & Hc & Ha).
        exists new. split; [reflexivity |].
        split; intros f.
        -- rewrite Hc.
           rewrite (Hcons (EIsFile p (OK b))), (Hcons (EIsDir p (OK false))),
             (Hcons (EPrint Stderr _)), !count_app.
           specialize (Hnone f). destruct (supported f); simpl in *; lia.
        -- rewrite (Hcons (EIsFile p (OK b))), (Hcons (EIsDir p (OK false))),
             (Hcons (EPrint Stderr _)), !count_app, !map_app, !list_sum_app.
           rewrite Ha, Hp. simpl. lia.
Qed.

(** C3, as the program has it.  When [gather_inputs] returns, its result
    is in pathlib's order (by components and code points, case-sensitive);
    it holds exactly the paths with the recognized extension
    (case-insensitive) that answered [is_file()], each given directly or
    found by [rglob] under a given directory; and it is a rearrangement of
    the files in the order they were collected.  No duplicate is removed:
    an eligible path is in the result once for each time [is_file()]
    answered true for it, and [is_file()] is asked of a path once for each
    time the path is given and once for each time a traversal finds it. *)
Theorem gather_inputs_sorted {W : Type} (h : Handler W) (w w' : W)
  (paths files : list Path) (t : list Event) :
  run h (gather_inputs paths) w = (OK files, w', t) ->
  Sorted path_le files
  /\ (forall f, In f files <-> supported f = true /\ In (EIsFile f (OK true)) t)
  /\ (forall f, In f files -> given_or_found paths t f)
  /\ (exists collected, run h (gather_paths paths []) w = (OK collected, w', t)
                        /\ Permutation collected files)
  /\ (forall f, count (PurePath.eqb f) files
                = if supported f then count (answered_file f) t else 0)
  /\ (forall f, count (asked_file f) t
                = count (PurePath.eqb f) paths + list_sum (map (found_under f) t)).
Proof.
  unfold gather_inputs. rewrite run_bind.
  destruct (run h (gather_paths paths []) w) as [[[collected | e] w1] t1] eqn:Hr;
    [| discriminate].
  simpl. rewrite app_nil_r. intros H. injection H as <- <- <-.
  pose proof (gather_paths_spec h paths _ _ _ _ _ Hr) as (new & Hnew & Hs & Hc).
  pose proof (gather_paths_count h paths _ _ _ _ _ Hr) as (new' & Hnew' & Hn & Ha).
  simpl in Hnew, Hnew'. subst new new'.
  split; [apply sorted_by_sorted; exact path_leb_total |].
  split; [| split; [| split; [| split]]].
  - intros f. rewrite sorted_by_in. split.
    + intros Hf. destruct (Hs _ Hf) as (H1 & H2 & _). split; assumption.
    + intros [H1 H2]. apply Hc; assumption.
  - intros f Hf. apply sorted_by_in in Hf. apply (Hs _ Hf).
  - exists collected. split; [reflexivity | apply sorted_by_perm].
  - intros f. rewrite <- (count_perm _ _ _ (sorted_by_perm Path PurePath.leb collected)).
    apply Hn.
  - exact Ha.
Qed.

(** C3 at work: [a.flac] is given twice and [B.flac] once; the result is
    in pathlib's order and keeps both entries of [a.flac]. *)
Lemma gather_inputs_sorted_witness :
  let files := [Scenario.P "/m/B.flac"; Scenario.P "/m/a.flac"; Scenario.P "/m/a.flac"] in
  let t := [EIsFile (Scenario.P "/m/a.flac") (OK true);
            EIsFile (Scenario.P "/m/B.flac") (OK true);
            EIsFile (Scenario.P "/m/a.flac") (OK true)] in
  Sorted path_le files
  /\ (forall f, In f files <-> supported f = true /\ In (EIsFile f (OK true)) t)
  /\ (forall f, In f files -> given_or_found Scenario.shelf_inputs t f)
  /\ (exists collected,
        run World.handle (gather_paths Scenario.shelf_inputs []) Scenario.shelf
        = (OK collected, Scenario.shelf, t)
        /\ Permutation collected files)
  /\ (forall f, count (PurePath.eqb f) files
                = if supported f then count (answered_file f) t else 0)
  /\ (forall f, count (asked_file f) t
                = count (PurePath.eqb f) Scenario.shelf_inputs
                  + list_sum (map (found_under f) t)).
Proof.
  exact (gather_inputs_sorted World.handle Scenario.shelf Scenario.shelf
           Scenario.shelf_inputs _ _ eq_refl).
Defined.

(** C3 as it is worded fails on the same run: the result holds [a.flac]
    twice, and [B.flac] comes before [a.flac], which the order of the
    names folded to lower case does not allow. *)
Lemma gather_inputs_keeps_duplicates :
  let files := [Scenario.P "/m/B.flac"; Scenario.P "/m/a.flac"; Scenario.P "/m/a.flac"] in
  outcome (run World.handle (gather_inputs Scenario.shelf_inputs) Scenario.shelf) = OK files
  /\ ~ NoDup files
  /\ ~ Sorted folded_le files.
Proof.
  cbv zeta. split; [reflexivity |]. split; intros H.
  - inversion H as [| x l _ H2]; subst.
    inversion H2 as [| y l' Hy _]; subst.
    apply Hy. left. reflexivity.
  - inversion H as [| x l _ Hd]; subst.
    inversion Hd as [| y l' Hle]; subst.
    vm_compute in Hle. discriminate Hle.
Qed.

(** ** Mirroring *)

(** X4.  When [compute_output_path] returns in directory mode with an input
    root, the destination lies under the output directory at the place the
    source has under the root, the extension replaced. *)
Lemma mirrored_when_computed (src root out dst : Path) (opts : Options) :
  inplace opts = false ->
  output_dir opts = Some out ->
  compute_output_path src opts (Some root) = OK dst ->
  exists rel rel',
    PurePath.relative_to src root = OK rel
    /\ PurePath.with_suffix rel OUTPUT_EXT = OK rel'
    /\ dst = out // rel'
    /\ PurePath.relative_to dst out = OK rel'.
Proof.
  intros Hin Hout. unfold compute_output_path. rewrite Hin, Hout.
  destruct (PurePath.with_suffix src OUTPUT_EXT) as [named | e]; [| discriminate].
  destruct (PurePath.relative_to src root) as [rel | e] eqn:Hrel; [| discriminate].
  destruct (PurePath.with_suffix rel OUTPUT_EXT) as [rel' | e] eqn:Hrel'; [| discriminate].
  intros H. injection H as <-. exists rel, rel'.
  split; [reflexivity |]. split; [exact Hrel' |]. split; [reflexivity |].
  assert (Habs : is_abs rel' = false).
  { apply with_suffix_name in Hrel'. destruct Hrel' as (_ & _ & Ha & _).
    rewrite Ha. unfold PurePath.relative_to in Hrel.
    destruct (if Bool.eqb (is_abs src) (is_abs root)
              then PurePath.strip_prefix (parts root) (parts src) else None);
      [| discriminate].
    injection Hrel as <-. reflexivity. }
  unfold PurePath.joinpath. rewrite Habs.
  unfold PurePath.relative_to. simpl.
  rewrite Bool.eqb_reflx, strip_prefix_self.
  destruct rel' as [a ps]. simpl in Habs. subst a. reflexivity.
Qed.

(** C2 does not hold of the program.  [flac2alac.py music], run in
    [/home/u]: the files are collected under the directory as it was
    given, [music/a.flac] and [music/sub/b.flac]; the input root is the
    directory resolved, [/home/u/music]; and for each of the two files
    [compute_output_path] raises [ValueError] from [relative_to], so no
    destination is computed. *)
Theorem relative_directory_not_mirrored :
  let opts := Scenario.options false false false false (Some Scenario.ffmpeg) in
  let root := Scenario.P "/home/u/music" in
  let raised (src : string) :=
    Err (mkExn ValueError
           ("'" ++ src ++ "' is not in the subpath of '/home/u/music'"
            ++ " OR one path is relative and the other is absolute.")) in
  outcome (run World.handle (gather_inputs [Scenario.P "music"]) Scenario.studio)
  = OK [Scenario.P "music/a.flac"; Scenario.P "music/sub/b.flac"]
  /\ outcome (run World.handle (perform (Resolve (Scenario.P "music"))) Scenario.studio)
     = OK root
  /\ compute_output_path (Scenario.P "music/a.flac") opts (Some root)
     = raised "music/a.flac"
  /\ compute_output_path (Scenario.P "music/sub/b.flac") opts (Some root)
     = raised "music/sub/b.flac".
Proof. cbv zeta. repeat split; reflexivity. Qed.

(** The same directory given by its absolute path is mirrored. *)
Example absolute_directory_mirrored :
  compute_output_path Scenario.b_flac
    (Scenario.options false false false false (Some Scenario.ffmpeg))
    (Some (Scenario.P "/home/u/music"))
  = OK (Scenario.P "/home/u/alac/sub/b.m4a").
Proof. reflexivity. Qed.

(** ** Exceptions that leave a job *)

(** C1 does not hold of the program.  The destination is computed, the
    skip check made and the destination's directory created outside every
    [try] of [convert_one].  In [flac2alac.py music], run in [/home/u], the
    job of [music/a.flac] raises the [ValueError] of [relative_to], and
    [main] raises it in turn, from its loop and from [fut.result()] of its
    pool.  In [flac2alac.py music/a.flac], run where [alac] is a regular
    file, the job raises the [OSError] of [mkdir], and so does [main]. *)
Theorem convert_one_raises :
  let opts := Scenario.options false false false false (Some Scenario.ffmpeg) in
  let detected := ("ffmpeg", Scenario.ffmpeg) in
  let src := Scenario.P "music/a.flac" in
  let not_under :=
    mkExn ValueError
      ("'music/a.flac' is not in the subpath of '/home/u/music'"
       ++ " OR one path is relative and the other is absolute.") in
  let file_exists := mkExn OSError "[Errno 17] File exists: '/home/u/alac'" in
  outcome (run World.handle
             (convert_one (hashlib := plain_digest) src opts detected
                (Some (Scenario.P "/home/u/music"))) Scenario.studio)
  = Err not_under
  /\ outcome (run World.handle (main (hashlib := plain_digest) Scenario.relative_directory)
                Scenario.studio)
     = Err not_under
  /\ outcome (run World.handle
                (main (hashlib := plain_digest) Scenario.relative_directory_pool)
                Scenario.studio)
     = Err not_under
  /\ outcome (run World.handle
                (convert_one (hashlib := plain_digest) src opts detected None)
                Scenario.blocked)
     = Err file_exists
  /\ outcome (run World.handle (main (hashlib := plain_digest) Scenario.one_file)
                Scenario.blocked)
     = Err file_exists.
Proof. cbv zeta. repeat split; vm_compute; reflexivity. Qed.

(** ** The exit status *)

(** The report loop counts a result as failed when its success flag is
    false and its message starts neither with ["skip"] nor with
    ["dry-run"]. *)
Lemma classify_failed (success : bool) (msg : string) (c : Counts) :
  failed (snd (classify success msg c))
  = if Str.startswith msg "skip" || Str.startswith msg "dry-run" || success
    then failed c else S (failed c).
Proof.
  unfold classify.
  destruct (Str.startswith msg "skip"); [reflexivity |].
  destruct (Str.startswith msg "dry-run"); [reflexivity |].
  destruct success; reflexivity.
Qed.

(** C8 does not hold of the program.  [flac2alac.py skip.flac], run in
    [/home/u] on a broken file: the encoder exits with status 1 and a
    diagnostic that starts with the file's name; the job's result has the
    success flag false; the report loop looks at the message first, counts
    the result as SKIP and not as failed; and [main] returns 0. *)
Theorem failed_job_exit_status :
  let opts := Scenario.options false false false false (Some Scenario.ffmpeg) in
  let msg := "skip.flac: Invalid data found when processing input" in
  let job := run World.handle
               (convert_one (hashlib := plain_digest) (Scenario.P "skip.flac") opts
                  ("ffmpeg", Scenario.ffmpeg) None) Scenario.broken in
  let all := run World.handle (main (hashlib := plain_digest) Scenario.broken_file)
               Scenario.broken in
  outcome job
  = OK (Scenario.P "skip.flac", Some (Scenario.P "/home/u/alac/skip.m4a"), false, msg)
  /\ outcome all = OK 0%Z
  /\ final 2 (trace all)
     = [EPrint Stdout ("[SKIP] skip.flac -> /home/u/alac/skip.m4a (" ++ msg ++ ")");
        EPrint Stdout "done: 0 ok, 1 skip, 0 fail"].
Proof. cbv zeta. repeat split; vm_compute; reflexivity. Qed.

(** The exit statuses where the program and its description agree: a
    failed job whose message is the encoder's plain diagnostic, no
    encoder, nothing to convert, and a run in which every job succeeds.
    (The status 2 of a command line with both [--inplace] and [-o] is
    [parse_args]'s.) *)
Example exit_status_failure :
  let all := run World.handle (main (hashlib := plain_digest) Scenario.second_file)
               (Scenario.home Scenario.failing_encoder Scenario.constant_decoder) in
  outcome all = OK 1%Z
  /\ final 2 (trace all)
     = [EPrint Stdout ("[FAIL] music/sub/b.flac -> /home/u/alac/b.m4a "
                       ++ "(Invalid data found when processing input)");
        EPrint Stdout "done: 0 ok, 0 skip, 1 fail"].
Proof. cbv zeta. split; vm_compute; reflexivity. Qed.

Example exit_status_no_encoder :
  outcome (run World.handle (main (hashlib := plain_digest) Scenario.one_file)
             Scenario.bare) = OK 127%Z.
Proof. reflexivity. Qed.

Example exit_status_nothing_to_do :
  outcome (run World.handle (main (hashlib := plain_digest) Scenario.nothing_to_do)
             Scenario.studio) = OK 0%Z.
Proof. reflexivity. Qed.

Example exit_status_success :
  let all := run World.handle (main (hashlib := plain_digest) Scenario.absolute_directory)
               Scenario.studio in
  outcome all = OK 0%Z
  /\ final 3 (trace all)
     = [EPrint Stdout "[SKIP] /home/u/music/a.flac -> /home/u/alac/a.m4a ";
        EPrint Stdout "[OK] /home/u/music/sub/b.flac -> /home/u/alac/sub/b.m4a ";
        EPrint Stdout "done: 1 ok, 1 skip, 0 fail"].
Proof. cbv zeta. split; vm_compute; reflexivity. Qed.

(** * More of the program *)

(** ** Destinations *)

Lemma rfind_app_ext (s : string) :
  Str.rfind "." (s ++ OUTPUT_EXT) = Some (String.length s).
Proof.
  induction s as [| c s IH]; [reflexivity |].
  change (String c s ++ OUTPUT_EXT) with (String c (s ++ OUTPUT_EXT)).
  simpl. rewrite IH. reflexivity.
Qed.

Lemma append_length (a b : string) :
  String.length (a ++ b) = String.length a + String.length b.
Proof.
  induction a as [| c a IH]; [reflexivity |].
  change (String c a ++ b) with (String c (a ++ b)). simpl. now rewrite IH.
Qed.

Lemma substring_app_tail (a b : string) :
  substring (String.length a) (String.length b) (a ++ b) = b.
Proof.
  induction a as [| c a IH].
  - change ("" ++ b) with b. simpl.
    induction b as [| c b IH]; simpl; [reflexivity | now rewrite IH].
  - change (String c a ++ b) with (String c (a ++ b)). simpl. exact IH.
Qed.

(** The suffix of a name that ends in the output extension. *)
Lemma suffix_of_app_ext (stem : string) :
  stem <> "" -> PurePath.suffix_of_name (stem ++ OUTPUT_EXT) = OUTPUT_EXT.
Proof.
  intros Hne. unfold PurePath.suffix_of_name.
  rewrite rfind_app_ext, append_length.
  assert (Hpos : 0 < String.length stem) by (destruct stem; [contradiction | simpl; lia]).
  change (String.length OUTPUT_EXT) with 4.
  replace ((0 <? String.length stem)%nat) with true by (symmetry; apply Nat.ltb_lt; lia).
  replace ((String.length stem <? String.length stem + 4 - 1)%nat) with true
    by (symmetry; apply Nat.ltb_lt; lia).
  simpl andb. cbv iota.
  replace (String.length stem + 4 - String.length stem) with (String.length OUTPUT_EXT)
    by (change (String.length OUTPUT_EXT) with 4; lia).
  apply substring_app_tail.
Qed.

(** What [with_suffix] makes of a name: a non-empty stem and the new
    extension. *)
Lemma renamed_stem (n : string) :
  n <> "" -> exists stem, stem <> "" /\ PurePath.renamed n OUTPUT_EXT = stem ++ OUTPUT_EXT.
Proof.
  intros Hne. unfold PurePath.renamed.
  destruct (Str.truthy (PurePath.suffix_of_name n)) eqn:Hold; simpl.
  - revert Hold. unfold PurePath.suffix_of_name.
    destruct (Str.rfind "." n) as [i |] eqn:Hr; [| discriminate].
    pose proof (rfind_lt _ _ _ Hr) as Hi.
    destruct ((0 <? i)%nat && (i <? String.length n - 1)%nat) eqn:Hc; [| discriminate].
    intros _. apply andb_prop in Hc. destruct Hc as [H0 _]. apply Nat.ltb_lt in H0.
    rewrite substring_length by lia.
    replace (String.length n - (String.length n - i)) with i by lia.
    exists (substring 0 i n). split; [| reflexivity].
    intros E. pose proof (substring_length n 0 i ltac:(lia)) as Hl.
    rewrite E in Hl. simpl in Hl. lia.
  - exists n. split; [exact Hne | reflexivity].
Qed.

(** X1.  Every destination carries the output extension, whatever the mode;
    so no destination is itself an eligible input. *)
Theorem destination_suffix (src dst : Path) (opts : Options) (root : option Path) :
  compute_output_path src opts root = OK dst ->
  PurePath.suffix dst = OUTPUT_EXT /\ supported dst = false.
Proof.
  intros H.
  assert (Hs : PurePath.suffix dst = OUTPUT_EXT).
  { pose proof (compute_output_path_name _ _ _ _ H) as Hname.
    assert (Hne : PurePath.name src <> "").
    { unfold compute_output_path in H.
      destruct (PurePath.with_suffix src OUTPUT_EXT) as [named | e] eqn:Hn;
        [| discriminate].
      apply with_suffix_name in Hn. tauto. }
    destruct (renamed_stem _ Hne) as (stem & Hstem & Hr).
    unfold PurePath.suffix. rewrite Hname, Hr. apply suffix_of_app_ext. exact Hstem. }
  split; [exact Hs |].
  unfold supported. rewrite Hs. reflexivity.
Qed.

(** X1 at work: the destination of [b.flac] under the mirrored tree. *)
Lemma destination_suffix_witness :
  PurePath.suffix (Scenario.P "/home/u/alac/sub/b.m4a") = OUTPUT_EXT
  /\ supported (Scenario.P "/home/u/alac/sub/b.m4a") = false.
Proof.
  exact (destination_suffix Scenario.b_flac (Scenario.P "/home/u/alac/sub/b.m4a")
           (Scenario.options false false false false None)
           (Some (Scenario.P "/home/u/music")) eq_refl).
Defined.

(** X2.  In-place mode: the destination is the source's sibling, named after it
    with the extension replaced; the output directory and the input root
    play no part. *)
Theorem inplace_destination (src dst : Path) (opts : Options) (root : option Path) :
  inplace opts = true ->
  compute_output_path src opts root = OK dst ->
  PurePath.parent dst = PurePath.parent src
  /\ PurePath.name dst = PurePath.renamed (PurePath.name src) OUTPUT_EXT
  /\ PurePath.with_suffix src OUTPUT_EXT = OK dst.
Proof.
  intros Hin. unfold compute_output_path. rewrite Hin.
  destruct (PurePath.with_suffix src OUTPUT_EXT) as [named | e] eqn:Hn; [| discriminate].
  intros H. injection H as <-.
  destruct (with_suffix_name _ _ _ Hn) as (_ & Hname & Habs & Hparts).
  split; [| split; [exact Hname | reflexivity]].
  unfold PurePath.parent. rewrite Habs, Hparts, removelast_last. reflexivity.
Qed.

(** X2 at work: [b.flac] converted in place, the input root ignored. *)
Lemma inplace_destination_witness :
  PurePath.parent (Scenario.P "/home/u/music/sub/b.m4a") = PurePath.parent Scenario.b_flac
  /\ PurePath.name (Scenario.P "/home/u/music/sub/b.m4a")
     = PurePath.renamed (PurePath.name Scenario.b_flac) OUTPUT_EXT
  /\ PurePath.with_suffix Scenario.b_flac OUTPUT_EXT
     = OK (Scenario.P "/home/u/music/sub/b.m4a").
Proof.
  exact (inplace_destination Scenario.b_flac (Scenario.P "/home/u/music/sub/b.m4a")
           (mkOptions None true false false 1 true false None false false None)
           (Some (Scenario.P "/home/u/music")) eq_refl eq_refl).
Defined.

(** X3.  Directory mode without an input root (several inputs, or a file): the
    destination is the output directory joined with the new name, so the
    source's directory is dropped, and every source of the same name gets
    the same destination. *)
Theorem flat_destination (src dst out : Path) (opts : Options) :
  inplace opts = false ->
  output_dir opts = Some out ->
  compute_output_path src opts None = OK dst ->
  dst = out // mkPath false [PurePath.renamed (PurePath.name src) OUTPUT_EXT]
  /\ forall other,
       PurePath.name other = PurePath.name src ->
       compute_output_path other opts None = OK dst.
Proof.
  intros Hin Hout. unfold compute_output_path. rewrite Hin, Hout.
  destruct (PurePath.with_suffix src OUTPUT_EXT) as [named | e] eqn:Hn; [| discriminate].
  destruct (with_suffix_name _ _ _ Hn) as (Hne & Hname & _ & _).
  intros H. injection H as <-. rewrite Hname. split; [reflexivity |].
  intros other Ho. unfold PurePath.with_suffix. rewrite Ho.
  destruct (Str.truthy (PurePath.name src)) eqn:Ht.
  - simpl. unfold PurePath.name at 1. simpl. rewrite last_app_one. reflexivity.
  - destruct (PurePath.name src); [contradiction | discriminate].
Qed.

(** X3 at work: [a.flac] without an input root, and any other file of that name. *)
Lemma flat_destination_witness :
  Scenario.a_m4a
  = Scenario.P "/home/u/alac"
    // mkPath false [PurePath.renamed (PurePath.name Scenario.a_flac) OUTPUT_EXT]
  /\ forall other,
       PurePath.name other = PurePath.name Scenario.a_flac ->
       compute_output_path other (Scenario.options false false false false None) None
       = OK Scenario.a_m4a.
Proof.
  exact (flat_destination Scenario.a_flac Scenario.a_m4a (Scenario.P "/home/u/alac")
           (Scenario.options false false false false None) eq_refl eq_refl eq_refl).
Defined.

(** X4 at work: [sub/b.flac] under [/home/u/music] goes to [sub/b.m4a] under [/home/u/alac]. *)
Lemma mirrored_when_computed_witness :
  exists rel rel',
    PurePath.relative_to Scenario.b_flac (Scenario.P "/home/u/music") = OK rel
    /\ PurePath.with_suffix rel OUTPUT_EXT = OK rel'
    /\ Scenario.P "/home/u/alac/sub/b.m4a" = Scenario.P "/home/u/alac" // rel'
    /\ PurePath.relative_to (Scenario.P "/home/u/alac/sub/b.m4a") (Scenario.P "/home/u/alac")
       = OK rel'.
Proof.
  exact (mirrored_when_computed Scenario.b_flac (Scenario.P "/home/u/music")
           (Scenario.P "/home/u/alac") (Scenario.P "/home/u/alac/sub/b.m4a")
           (Scenario.options false false false false None) eq_refl eq_refl eq_refl).
Defined.

(** ** Decoding *)

Lemma read_chunks_all (cs : list bytes) :
  Forall (fun c => c <> []) cs ->
  forall fed, read_chunks (map OK cs) fed = OK (fed ++ concat cs)%list.
Proof.
  induction 1 as [| c cs Hc _ IH]; intros fed; simpl.
  - now rewrite app_nil_r.
  - destruct c as [| b c]; [contradiction |].
    rewrite IH, <- app_assoc. reflexivity.
Qed.

(** X6.  The digest of a decoding that ends well is the digest of the bytes
    read, however they were cut into chunks, and whatever the decoder wrote
    to its standard error. *)
Theorem pcm_digest_chunking {hashlib : Hashlib} (cs1 cs2 : list bytes) (e1 e2 : string) :
  Forall (fun c => c <> []) cs1 ->
  Forall (fun c => c <> []) cs2 ->
  concat cs1 = concat cs2 ->
  pcm_digest (mkPopen (map OK cs1) 0 e1) = OK (md5_hexdigest (concat cs1))
  /\ pcm_digest (mkPopen (map OK cs1) 0 e1) = pcm_digest (mkPopen (map OK cs2) 0 e2).
Proof.
  intros H1 H2 E. unfold pcm_digest. simpl.
  rewrite (read_chunks_all cs1 H1), (read_chunks_all cs2 H2). simpl.
  rewrite E. split; reflexivity.
Qed.

(** X6 at work: three bytes read as 2 + 1 and as 1 + 2. *)
Lemma pcm_digest_chunking_witness :
  pcm_digest (hashlib := plain_digest) (mkPopen (map OK [[Byte.x01; Byte.x02]; [Byte.x03]]) 0 "")
  = OK (@md5_hexdigest plain_digest (concat [[Byte.x01; Byte.x02]; [Byte.x03]]))
  /\ pcm_digest (hashlib := plain_digest)
       (mkPopen (map OK [[Byte.x01; Byte.x02]; [Byte.x03]]) 0 "")
     = pcm_digest (hashlib := plain_digest)
         (mkPopen (map OK [[Byte.x01]; [Byte.x02; Byte.x03]]) 0 "note").
Proof.
  apply (pcm_digest_chunking (hashlib := plain_digest)
           [[Byte.x01; Byte.x02]; [Byte.x03]] [[Byte.x01]; [Byte.x02; Byte.x03]] "" "note").
  - repeat constructor; discriminate.
  - repeat constructor; discriminate.
  - reflexivity.
Defined.

(** X7.  A decoder that exits with a non-zero status, its output read without
    error, makes [compute_pcm_md5] raise [RuntimeError]; the message is what
    the decoder wrote to its standard error, stripped, or the default
    message if that is empty, and is never empty. *)
Theorem pcm_digest_failure {hashlib : Hashlib} (proc : PopenProc) (fed : bytes) :
  read_chunks (stdout_reads proc) [] = OK fed ->
  popen_returncode proc <> 0%Z ->
  exists msg,
    pcm_digest proc = Err (mkExn RuntimeError msg)
    /\ msg <> ""
    /\ (msg = Str.strip (stderr_text proc)
        \/ (Str.strip (stderr_text proc) = "" /\ msg = "PCMデコードに失敗")).
Proof.
  intros Hr Hc. unfold pcm_digest. rewrite Hr.
  apply Z.eqb_neq in Hc. rewrite Hc. simpl.
  destruct (Str.strip (stderr_text proc)) as [| c s] eqn:Hs; simpl.
  - eexists. split; [reflexivity |]. split; [discriminate | right; split; reflexivity].
  - eexists. split; [reflexivity |]. split; [discriminate | left; reflexivity].
Qed.

(** X7 at work: a decoder that exits with status 1 and a diagnostic. *)
Lemma pcm_digest_failure_witness :
  exists msg,
    pcm_digest (hashlib := plain_digest)
      (mkPopen [] 1 "Invalid data found when processing input")
    = Err (mkExn RuntimeError msg)
    /\ msg <> ""
    /\ (msg = Str.strip "Invalid data found when processing input"
        \/ (Str.strip "Invalid data found when processing input" = ""
            /\ msg = "PCMデコードに失敗")).
Proof.
  apply (pcm_digest_failure (hashlib := plain_digest)
           (mkPopen [] 1 "Invalid data found when processing input") []).
  - reflexivity.
  - discriminate.
Defined.

(** ** Destinations that cannot be computed *)

(** X5.  The ways [compute_output_path] raises: [ValueError] for a source with
    an empty name; in directory mode, [AssertionError] without an output
    directory, and, with an input root, the [ValueError] of [relative_to]
    for a source that is not under the root, or [ValueError] for the root
    itself, whose relative path has no name. *)
Theorem destination_errors (src : Path) (opts : Options) (root : option Path) (e : Exn) :
  compute_output_path src opts root = Err e ->
  (exn_kind e = ValueError /\ PurePath.name src = "")
  \/ (PurePath.name src <> "" /\ inplace opts = false
      /\ ((exn_kind e = AssertionError /\ output_dir opts = None)
          \/ exists out r,
               output_dir opts = Some out /\ root = Some r /\ exn_kind e = ValueError
               /\ (PurePath.relative_to src r = Err e
                   \/ exists rel, PurePath.relative_to src r = OK rel
                                  /\ PurePath.name rel = ""))).
Proof.
  unfold compute_output_path.
  assert (Hws : forall p q, PurePath.with_suffix p OUTPUT_EXT = Err q ->
                            exn_kind q = ValueError /\ PurePath.name p = "").
  { intros p q. unfold PurePath.with_suffix.
    destruct (PurePath.name p) eqn:Hn; simpl; [| discriminate].
    intros H. injection H as <-. split; reflexivity. }
  destruct (PurePath.with_suffix src OUTPUT_EXT) as [named | e0] eqn:Hn.
  - apply with_suffix_name in Hn. destruct Hn as (Hne & _).
    destruct (inplace opts); [discriminate |].
    intros H. right. split; [exact Hne |]. split; [reflexivity |].
    destruct (output_dir opts) as [out |].
    + destruct root as [r |]; [| discriminate H].
      right. exists out, r. split; [reflexivity |]. split; [reflexivity |].
      destruct (PurePath.relative_to src r) as [rel | e1] eqn:Hrel.
      * destruct (PurePath.with_suffix rel OUTPUT_EXT) as [rel' | e2] eqn:Hrel';
          [discriminate H |].
        injection H as <-. destruct (Hws _ _ Hrel') as [Hk Hname].
        split; [exact Hk |]. right. exists rel. split; [reflexivity | exact Hname].
      * injection H as <-. split; [| left; reflexivity].
        revert Hrel. unfold PurePath.relative_to.
        destruct (if Bool.eqb (is_abs src) (is_abs r)
                  then PurePath.strip_prefix (parts r) (parts src) else None);
          [discriminate |].
        intros H. injection H as <-. reflexivity.
    + injection H as <-. left. split; reflexivity.
  - intros H. left. destruct (Hws _ _ Hn) as [Hk Hname].
    destruct (inplace opts); injection H as <-; split; assumption.
Qed.

(** X5 at work: a relative source against an absolute root. *)
Lemma destination_errors_witness :
  let src := Scenario.P "music/a.flac" in
  let opts := Scenario.options false false false false (Some Scenario.ffmpeg) in
  let e := mkExn ValueError
             ("'music/a.flac' is not in the subpath of '/home/u/music'"
              ++ " OR one path is relative and the other is absolute.") in
  (exn_kind e = ValueError /\ PurePath.name src = "")
  \/ (PurePath.name src <> "" /\ inplace opts = false
      /\ ((exn_kind e = AssertionError /\ output_dir opts = None)
          \/ exists out r,
               output_dir opts = Some out /\ Some (Scenario.P "/home/u/music") = Some r
               /\ exn_kind e = ValueError
               /\ (PurePath.relative_to src r = Err e
                   \/ exists rel, PurePath.relative_to src r = OK rel
                                  /\ PurePath.name rel = ""))).
Proof.
  exact (destination_errors (Scenario.P "music/a.flac")
           (Scenario.options false false false false (Some Scenario.ffmpeg))
           (Some (Scenario.P "/home/u/music")) _ eq_refl).
Defined.

(** ** Runs, by their parts *)

Lemma run_do {W A R : Type} (h : Handler W) (op : Op R) (k : Result R -> Prog A) (w : W) :
  run h (Do op k) w
  = let x := run h (k (fst (h _ op w))) (snd (h _ op w)) in
    (outcome x, final_world x, event_of op (fst (h _ op w)) :: trace x).
Proof.
  simpl. destruct (h R op w) as [r w1]. simpl.
  destruct (run h (k r) w1) as [[o w2] t]. reflexivity.
Qed.

Lemma trace_do {W A R : Type} (h : Handler W) (op : Op R) (k : Result R -> Prog A) (w : W) :
  trace (run h (Do op k) w)
  = event_of op (fst (h _ op w)) :: trace (run h (k (fst (h _ op w))) (snd (h _ op w))).
Proof. rewrite run_do. reflexivity. Qed.

Lemma outcome_do {W A R : Type} (h : Handler W) (op : Op R) (k : Result R -> Prog A) (w : W) :
  outcome (run h (Do op k) w) = outcome (run h (k (fst (h _ op w))) (snd (h _ op w))).
Proof. rewrite run_do. reflexivity. Qed.

Lemma outcome_bind {W A B : Type} (h : Handler W) (p : Prog A) (f : A -> Prog B) (w : W) :
  outcome (run h (bind p f) w)
  = match outcome (run h p w) with
    | OK a => outcome (run h (f a) (final_world (run h p w)))
    | Err e => Err e
    end.
Proof.
  rewrite run_bind. unfold outcome, final_world.
  destruct (run h p w) as [[[a | e] w1] t1]; simpl; [| reflexivity].
  destruct (run h (f a) w1) as [[o w2] t2]. reflexivity.
Qed.

Lemma trace_bind {W A B : Type} (h : Handler W) (p : Prog A) (f : A -> Prog B) (w : W) :
  trace (run h (bind p f) w)
  = (trace (run h p w)
     ++ match outcome (run h p w) with
        | OK a => trace (run h (f a) (final_world (run h p w)))
        | Err _ => []
        end)%list.
Proof.
  rewrite run_bind. unfold outcome, final_world, trace.
  destruct (run h p w) as [[[a | e] w1] t1]; simpl.
  - destruct (run h (f a) w1) as [[o w2] t2]. reflexivity.
  - now rewrite app_nil_r.
Qed.

(** ** The skip check *)

(** X8.  [should_skip] answers true only with overwrite off and after three
    queries that were all answered: the destination exists, and its
    modification time is not below the source's. *)
Theorem should_skip_only_if {W : Type} (h : Handler W) (w : W) (src dst : Path)
  (ov : bool) :
  outcome (run h (should_skip src dst ov) w) = OK true ->
  ov = false
  /\ exists d s,
       trace (run h (should_skip src dst ov) w)
       = [EExists dst (OK true); EStat dst (OK d); EStat src (OK s)]
       /\ PrimFloat.leb (st_mtime s) (st_mtime d) = true.
Proof.
  unfold should_skip, perform, except_kind. destruct ov; [discriminate |].
  drive h; unfold outcome, trace; simpl; intros H; try discriminate H.
  split; [reflexivity |]. do 2 eexists. split; [reflexivity |].
  injection H as H. exact H.
Qed.

(** X8 at work: [a.flac] and its up-to-date [a.m4a]. *)
Lemma should_skip_only_if_witness :
  false = false
  /\ exists d s,
       trace (run World.handle (should_skip Scenario.a_flac Scenario.a_m4a false)
                Scenario.studio)
       = [EExists Scenario.a_m4a (OK true); EStat Scenario.a_m4a (OK d);
          EStat Scenario.a_flac (OK s)]
       /\ PrimFloat.leb (st_mtime s) (st_mtime d) = true.
Proof.
  exact (should_skip_only_if World.handle Scenario.studio Scenario.a_flac Scenario.a_m4a
           false eq_refl).
Defined.

(** X9.  The exceptions that leave [should_skip]: whatever [exists] raises, and
    whatever a [stat] raises that is not a [FileNotFoundError]; the request
    that raised is the last one made. *)
Theorem should_skip_raises {W : Type} (h : Handler W) (w : W) (src dst : Path)
  (ov : bool) (e : Exn) :
  outcome (run h (should_skip src dst ov) w) = Err e ->
  let t := trace (run h (should_skip src dst ov) w) in
  ov = false
  /\ (t = [EExists dst (Err e)]
      \/ (exn_kind e <> FileNotFoundError
          /\ (t = [EExists dst (OK true); EStat dst (Err e)]
              \/ exists d, t = [EExists dst (OK true); EStat dst (OK d);
                                EStat src (Err e)]))).
Proof.
  cbv zeta. unfold should_skip, perform, except_kind. destruct ov; [discriminate |].
  drive h; unfold outcome, trace; simpl; intros H; try discriminate H;
    injection H as <-; (split; [reflexivity |]).
  all: try (left; reflexivity).
  all: right; split;
    try (intros F; rewrite F in *; discriminate);
    first [left; reflexivity | right; eexists; reflexivity].
Qed.

(** X9 at work: permission refused on the destination. *)
Lemma should_skip_raises_witness :
  let e := mkExn OSError "[Errno 13] Permission denied: '/home/u/alac/a.m4a'" in
  let t := trace (run Scenario.denied (should_skip Scenario.a_flac Scenario.a_m4a false) tt) in
  false = false
  /\ (t = [EExists Scenario.a_m4a (Err e)]
      \/ (exn_kind e <> FileNotFoundError
          /\ (t = [EExists Scenario.a_m4a (OK true); EStat Scenario.a_m4a (Err e)]
              \/ exists d, t = [EExists Scenario.a_m4a (OK true); EStat Scenario.a_m4a (OK d);
                                EStat Scenario.a_flac (Err e)]))).
Proof.
  exact (should_skip_raises Scenario.denied tt Scenario.a_flac Scenario.a_m4a false
           (mkExn OSError "[Errno 13] Permission denied: '/home/u/alac/a.m4a'") eq_refl).
Defined.

(** X10.  [should_skip] only reads metadata, with at most three queries; with
    overwrite on it asks nothing at all. *)
Theorem should_skip_queries {W : Type} (h : Handler W) (w : W) (src dst : Path) (ov : bool) :
  let t := trace (run h (should_skip src dst ov) w) in
  Forall (fun e => is_query e = true) t
  /\ List.length t <= 3
  /\ (ov = true -> t = [] /\ outcome (run h (should_skip src dst ov) w) = OK false).
Proof.
  cbv zeta. unfold should_skip, perform, except_kind. destruct ov.
  - simpl. repeat split; [constructor | lia].
  - drive h; unfold outcome, trace; simpl;
      (split; [repeat constructor | split; [lia | discriminate]]).
Qed.

(** ** What collecting the inputs asks of the file system *)

Lemma gather_found_trace {W : Type} (h : Handler W) (found : list Path) :
  forall (files : list Path) (w : W),
    Forall (fun e => exists f r, e = EIsFile f r)
      (trace (run h (gather_found found files) w)).
Proof.
  induction found as [| f rest IH]; intros files w; simpl gather_found.
  - constructor.
  - unfold perform. simpl bind. rewrite trace_do.
    constructor; [do 2 eexists; reflexivity |].
    destruct (fst (h bool (IsFile f) w)) as [b | e]; simpl.
    + destruct (b && supported f); apply IH.
    + constructor.
Qed.

Lemma gather_paths_trace {W : Type} (h : Handler W) (paths : list Path) :
  forall (files : list Path) (w : W),
    let t := trace (run h (gather_paths paths files) w) in
    Forall (fun e => gather_event e = true) t
    /\ (forall line, In (EPrint Stderr line) t <->
          exists p, In p paths /\ line = not_eligible_warning p
                    /\ In (EIsDir p (OK false)) t)
    /\ (forall p r, In (EIsDir p r) t -> In p paths)
    /\ (forall p r, In (ERGlob p r) t -> In p paths /\ In (EIsDir p (OK true)) t).
Proof.
  induction paths as [| p rest IH]; intros files w; cbv zeta; simpl gather_paths.
  - simpl. split; [constructor |]. split; [| split]; try tauto.
    intros line. split; [tauto | intros (q & F & _); exact F].
  - unfold perform, warn. simpl bind. rewrite trace_do.
    set (w1 := snd (h bool (IsFile p) w)).
    destruct (fst (h bool (IsFile p) w)) as [b | e]; simpl bind.
    2:{ simpl. split; [repeat constructor |]. split; [| split].
        - intros line. split; [intros [F | []]; discriminate F |].
          intros (q & _ & _ & [F | []]). discriminate F.
        - intros q r [F | []]. discriminate F.
        - intros q r [F | []]. discriminate F. }
    destruct (b && supported p).
    + destruct (IH (files ++ [p])%list w1) as (Hall & Hwarn & Hdir & Hglob).
      set (t := trace (run h (gather_paths rest (files ++ [p])%list) w1)) in *.
      split; [constructor; [reflexivity | exact Hall] |]. split; [| split].
      * intros line. split.
        -- intros [F | H]; [discriminate F |].
           apply Hwarn in H. destruct H as (q & Hq & Hl & Hd).
           exists q. split; [right; exact Hq | split; [exact Hl | right; exact Hd]].
        -- intros (q & Hq & Hl & [F | Hd]); [discriminate F |].
           right. apply Hwarn. exists q. split; [| split; assumption].
           exact (Hdir _ _ Hd).
      * intros q r [F | H]; [discriminate F | right; exact (Hdir _ _ H)].
      * intros q r [F | H]; [discriminate F |].
        destruct (Hglob _ _ H) as [H1 H2]. split; right; assumption.
    + rewrite trace_do.
      set (w2 := snd (h bool (IsDir p) w1)).
      destruct (fst (h bool (IsDir p) w1)) as [d | e]; simpl bind.
      2:{ simpl. split; [repeat constructor |]. split; [| split].
          - intros line. split; [intros [F | [F | []]]; discriminate F |].
            intros (q & _ & _ & [F | [F | []]]); discriminate F.
          - intros q r [F | [F | []]]; [discriminate F |].
            injection F as <- _. left. reflexivity.
          - intros q r [F | [F | []]]; discriminate F. }
      destruct d.
      * rewrite trace_do.
        set (w3 := snd (h (list Path) (RGlob p) w2)).
        destruct (fst (h (list Path) (RGlob p) w2)) as [found | e] eqn:Hfound; simpl bind.
        2:{ simpl. split; [repeat constructor |]. split; [| split].
            - intros line. split; [intros [F | [F | [F | []]]]; discriminate F |].
              intros (q & _ & _ & [F | [F | [F | []]]]); discriminate F.
            - intros q r [F | [F | [F | []]]]; try discriminate F.
              injection F as <- _. left. reflexivity.
            - intros q r [F | [F | [F | []]]]; try discriminate F.
              injection F as <- _. split; [left; reflexivity |].
              right. left. reflexivity. }
        rewrite trace_bind.
        pose proof (gather_found_trace h found files w3) as Hf.
        set (tf := trace (run h (gather_found found files) w3)) in *.
        assert (Hfp : forall e, In e tf -> exists f r, e = EIsFile f r).
        { apply Forall_forall. exact Hf. }
        destruct (outcome (run h (gather_found found files) w3)) as [files' | e].
        -- destruct (IH files' (final_world (run h (gather_found found files) w3)))
             as (Hall & Hwarn & Hdir & Hglob).
           set (t := trace (run h (gather_paths rest files') _)) in *.
           split; [| split; [| split]].
           ++ repeat (constructor; [reflexivity |]).
              apply Forall_app. split; [| exact Hall].
              apply Forall_forall. intros ev Hev.
              destruct (Hfp _ Hev) as (f & r & ->). reflexivity.
           ++ intros line. split.
              ** intros [F | [F | [F | H]]]; try discriminate F.
                 apply in_app_or in H. destruct H as [H | H].
                 { destruct (Hfp _ H) as (f & r & F). discriminate F. }
                 apply Hwarn in H. destruct H as (q & Hq & Hl & Hd).
                 exists q. split; [right; exact Hq | split; [exact Hl |]].
                 do 3 right. apply in_or_app. right. exact Hd.
              ** intros (q & Hq & Hl & [F | [F | [F | Hd]]]); try discriminate F.
                 do 3 right. apply in_or_app.
                 apply in_app_or in Hd. destruct Hd as [Hd | Hd].
                 { destruct (Hfp _ Hd) as (f & r & F). discriminate F. }
                 right. apply Hwarn. exists q. split; [| split; assumption].
                 exact (Hdir _ _ Hd).
           ++ intros q r [F | [F | [F | H]]]; try discriminate F.
              { injection F as <- _. left. reflexivity. }
              apply in_app_or in H. destruct H as [H | H].
              { destruct (Hfp _ H) as (f & r' & F). discriminate F. }
              right. exact (Hdir _ _ H).
           ++ intros q r [F | [F | [F | H]]]; try discriminate F.
              { injection F as <- _. split; [left; reflexivity |].
                right. left. reflexivity. }
              apply in_app_or in H. destruct H as [H | H].
              { destruct (Hfp _ H) as (f & r' & F). discriminate F. }
              destruct (Hglob _ _ H) as [H1 H2]. split; [right; exact H1 |].
              do 3 right. apply in_or_app. right. exact H2.
        -- rewrite app_nil_r. split; [| split; [| split]].
           ++ repeat (constructor; [reflexivity |]).
              apply Forall_forall. intros ev Hev.
              destruct (Hfp _ Hev) as (f & r & ->). reflexivity.
           ++ intros line. split.
              ** intros [F | [F | [F | H]]]; try discriminate F.
                 destruct (Hfp _ H) as (f & r & F). discriminate F.
              ** intros (q & Hq & Hl & [F | [F | [F | Hd]]]); try discriminate F.
                 destruct (Hfp _ Hd) as (f & r & F). discriminate F.
           ++ intros q r [F | [F | [F | H]]]; try discriminate F.
              { injection F as <- _. left. reflexivity. }
              destruct (Hfp _ H) as (f & r' & F). discriminate F.
           ++ intros q r [F | [F | [F | H]]]; try discriminate F.
              { injection F as <- _. split; [left; reflexivity |].
                right. left. reflexivity. }
              destruct (Hfp _ H) as (f & r' & F). discriminate F.
      * rewrite trace_do.
        set (w3 := snd (h unit (Print Stderr _) w2)).
        destruct (IH files w3) as (Hall & Hwarn & Hdir & Hglob).
        set (t := trace (run h (gather_paths rest files) w3)) in *.
        split; [repeat (constructor; [reflexivity |]); exact Hall |]. split; [| split].
        -- intros line. split.
           ++ intros [F | [F | [F | H]]]; try discriminate F.
              { injection F as <-. exists p. split; [left; reflexivity |].
                split; [reflexivity |]. right. left. reflexivity. }
              apply Hwarn in H. destruct H as (q & Hq & Hl & Hd).
              exists q. split; [right; exact Hq | split; [exact Hl |]].
              do 3 right. exact Hd.
           ++ intros (q & Hq & Hl & [F | [F | [F | Hd]]]); try discriminate F.
              { injection F as <-. right. right. left. rewrite Hl. reflexivity. }
              do 3 right. apply Hwarn. exists q. split; [| split; assumption].
              exact (Hdir _ _ Hd).
        -- intros q r [F | [F | [F | H]]]; try discriminate F.
           { injection F as <- _. left. reflexivity. }
           right. exact (Hdir _ _ H).
        -- intros q r [F | [F | [F | H]]]; try discriminate F.
           destruct (Hglob _ _ H) as [H1 H2]. split; [right; exact H1 |].
           do 3 right. exact H2.
Qed.

(** X11.  [gather_inputs] only looks: it asks [is_file], [is_dir] and [rglob] and
    prints warnings, whatever the outcome.  A warning is printed exactly for
    the given paths that are neither an eligible file nor a directory (an
    ineligible file found inside a directory is passed over in silence);
    and only given paths that answered as directories are traversed. *)
Theorem gather_inputs_requests {W : Type} (h : Handler W) (w : W) (paths : list Path) :
  let t := trace (run h (gather_inputs paths) w) in
  Forall (fun e => gather_event e = true) t
  /\ (forall line, In (EPrint Stderr line) t <->
        exists p, In p paths /\ line = not_eligible_warning p
                  /\ In (EIsDir p (OK false)) t)
  /\ (forall p r, In (ERGlob p r) t -> In p paths /\ In (EIsDir p (OK true)) t).
Proof.
  cbv zeta. unfold gather_inputs. rewrite trace_bind.
  destruct (gather_paths_trace h paths [] w) as (Hall & Hwarn & _ & Hglob).
  destruct (outcome (run h (gather_paths paths []) w)); simpl; rewrite app_nil_r;
    (split; [exact Hall | split; [exact Hwarn | exact Hglob]]).
Qed.

(** ** Finding the encoder *)

Lemma opt_truthy_unwrap (o : option string) :
  opt_truthy o = true -> Str.truthy (unwrap o) = true.
Proof. destruct o as [s |]; [intros H; exact H | discriminate]. Qed.

(** X12.  [detect_converter] only searches for executables and warns.  What it
    returns names one of the two backends, with a non-empty path; what it
    raises is its own no-encoder error or what a search raised. *)
Theorem detect_converter_result {W : Type} (h : Handler W) (w : W) (prefer : bool)
  (explicit : option string) :
  let x := run h (detect_converter prefer explicit) w in
  Forall (fun e => search_event e = true) (trace x)
  /\ (forall kind bin, outcome x = OK (kind, bin) ->
        (kind = "ffmpeg" \/ kind = "afconvert") /\ Str.truthy bin = true)
  /\ (forall e, outcome x = Err e ->
        e = mkExn RuntimeError no_encoder_msg \/ exists name, In (EWhich name (Err e)) (trace x)).
Proof.
  cbv zeta. unfold detect_converter, which_ffmpeg, which_afconvert, perform, warn.
  drive h; unfold outcome, trace; simpl.
  all: split; [repeat constructor |].
  all: split; [intros kind bin H; try discriminate H; injection H as <- <-
              | intros x H; try discriminate H; injection H as <-].
  all: try (split; [first [left; reflexivity | right; reflexivity] |]).
  all: try solve [apply opt_truthy_unwrap; assumption].
  all: try solve [left; reflexivity].
  all: try solve [right; eexists; member].
  all: try (apply opt_truthy_unwrap;
            match goal with H : opt_truthy (if ?b then _ else _) = true |- _ =>
              destruct b; [assumption | discriminate H] end).
Qed.

(** ** The report *)

(** X13.  The report loop prints one line for every result, in the order it is
    given them, and returns the counters: every result is counted once, as
    skipped, dry, ok or failed; a result is counted as failed exactly when
    its flag is false and its message starts neither with ["skip"] nor with
    ["dry-run"]. *)
Theorem report_counts {W : Type} (h : Handler W) (rs : list JobResult) :
  forall (c : Counts) (w : W),
    let x := run h (report rs c) w in
    trace x = map (fun r => EPrint Stdout (report_line (status_of r) r)) rs
    /\ outcome x
       = OK (mkCounts (ok c + count counted_ok rs) (skipped c + count counted_skip rs)
               (failed c + count counted_failed rs))
    /\ count counted_ok rs + count counted_skip rs + count counted_dry rs
       + count counted_failed rs = List.length rs.
Proof.
  unfold count.
  induction rs as [| r rs IH]; intros c w; cbv zeta.
  - simpl. rewrite !Nat.add_0_r. destruct c. repeat split.
  - simpl report. unfold classify, status_of, counted_skip, counted_dry, counted_ok,
      counted_failed in *.
    simpl filter. simpl map.
    destruct (Str.startswith (job_msg r) "skip");
      [| destruct (Str.startswith (job_msg r) "dry-run"); [| destruct (job_success r)]];
      simpl negb; simpl andb; cbv iota; rewrite trace_do, outcome_do;
      match goal with
      | |- context [run h (report rs ?c') ?w'] =>
          destruct (IH c' w') as (Ht & Ho & Hn)
      end;
      rewrite Ht, Ho; simpl; (split; [reflexivity |]);
      (split; [f_equal; f_equal; lia | lia]).
Qed.

(** [String.leb] is total. *)
Lemma string_leb_total (a b : string) : String.leb a b = true \/ String.leb b a = true.
Proof.
  unfold String.leb. rewrite (String.compare_antisym b a).
  destruct (String.compare a b); simpl; auto.
Qed.

(** ** Dispatching the jobs *)

(** X15.  The sequential loop stops at the first job that raises: the exception
    leaves the loop, the results collected so far are dropped, and the
    jobs after it are not run. *)
Theorem sequential_stops_at_raise {W : Type} (h : Handler W) (j : Prog JobResult)
  (rest : list (Prog JobResult)) (e : Exn) (before : list (Prog JobResult)) :
  forall (acc acc' : list JobResult) (w : W),
    let x := run h (run_sequential before acc) w in
    let y := run h j (final_world x) in
    outcome x = OK acc' ->
    outcome y = Err e ->
    run h (run_sequential (before ++ j :: rest) acc) w
    = (Err e, final_world y, (trace x ++ trace y)%list).
Proof.
  induction before as [| d ds IH]; intros acc acc' w; cbv zeta.
  - simpl. unfold outcome, final_world, trace. simpl. intros _ Hj.
    rewrite run_bind. destruct (run h j w) as [[[r | e'] w1] t1]; simpl in *.
    + discriminate Hj.
    + injection Hj as <-. reflexivity.
  - simpl. rewrite !run_bind.
    destruct (run h d w) as [[[r | e'] w1] t1]; [| discriminate].
    specialize (IH (acc ++ [r])%list acc' w1). cbv zeta in IH.
    destruct (run h (run_sequential ds (acc ++ [r])%list) w1) as [[o w2] t2] eqn:Hds.
    unfold outcome, final_world, trace in *. simpl in *.
    intros Ho Hj. rewrite (IH Ho Hj). rewrite app_assoc. reflexivity.
Qed.

(** X15 at work: the first of two jobs raises; the second is not run. *)
Lemma sequential_stops_at_raise_witness :
  let opts := Scenario.options false false false false (Some Scenario.ffmpeg) in
  let job (f : string) :=
    convert_one (hashlib := plain_digest) (Scenario.P f) opts ("ffmpeg", Scenario.ffmpeg)
      (Some (Scenario.P "/home/u/music")) in
  let e := mkExn ValueError
             ("'music/a.flac' is not in the subpath of '/home/u/music'"
              ++ " OR one path is relative and the other is absolute.") in
  run World.handle
    (run_sequential ([] ++ job "music/a.flac" :: [job "/home/u/music/sub/b.flac"]) [])
    Scenario.studio
  = (Err e, Scenario.studio, []).
Proof.
  exact (sequential_stops_at_raise World.handle
           (convert_one (hashlib := plain_digest) (Scenario.P "music/a.flac")
              (Scenario.options false false false false (Some Scenario.ffmpeg))
              ("ffmpeg", Scenario.ffmpeg) (Some (Scenario.P "/home/u/music")))
           [convert_one (hashlib := plain_digest) (Scenario.P "/home/u/music/sub/b.flac")
              (Scenario.options false false false false (Some Scenario.ffmpeg))
              ("ffmpeg", Scenario.ffmpeg) (Some (Scenario.P "/home/u/music"))]
           _ [] [] [] Scenario.studio eq_refl eq_refl).
Defined.

Lemma remove_nth_perm {A : Type} (l : list A) (i : nat) (x : A) :
  nth_error l i = Some x -> Permutation (x :: remove_nth i l) l.
Proof.
  intros H. destruct (nth_error_split l i H) as (l1 & l2 & -> & <-).
  unfold remove_nth.
  rewrite firstn_app, firstn_all, Nat.sub_diag, app_nil_r.
  replace (skipn (S (List.length l1)) (l1 ++ x :: l2)%list) with l2.
  - apply Permutation_middle.
  - rewrite skipn_app, skipn_all2 by lia.
    replace (S (List.length l1) - List.length l1) with 1 by lia. reflexivity.
Qed.

Lemma as_completed_step (fuel : nat) (pending : list (Result JobResult))
  (results : list JobResult) :
  pending <> [] ->
  as_completed (S fuel) pending results
  = Do (NextCompleted (List.length pending)) (fun r =>
      let i := (match r with OK i => i | Err _ => 0 end) mod List.length pending in
      match nth_error pending i with
      | Some (OK res) => as_completed fuel (remove_nth i pending) (results ++ [res])%list
      | Some (Err e) => Throw e
      | None => Ret results
      end).
Proof. destruct pending; [contradiction | reflexivity]. Qed.

Lemma as_completed_outcome {W : Type} (h : Handler W) (n : nat) :
  forall (pending : list (Result JobResult)) (results : list JobResult) (w : W),
    List.length pending = n ->
    match outcome (run h (as_completed n pending results) w) with
    | OK all => exists rs, all = (results ++ rs)%list /\ Permutation (map OK rs) pending
    | Err e => In (Err e) pending
    end.
Proof.
  induction n as [| n IH]; intros pending results w Hlen.
  - destruct pending; [| discriminate]. simpl. exists []. now rewrite app_nil_r.
  - destruct pending as [| p ps]; [discriminate |].
    set (pending := p :: ps) in *.
    rewrite as_completed_step by discriminate. clearbody pending. clear p ps.
    rewrite outcome_do. cbv zeta.
    set (i := _ mod List.length pending).
    assert (Hi : i < List.length pending) by (apply Nat.mod_upper_bound; lia).
    destruct (nth_error pending i) as [x |] eqn:Hx;
      [| apply nth_error_None in Hx; lia].
    pose proof (remove_nth_perm _ _ _ Hx) as Hperm.
    destruct x as [res | e].
    + assert (Hl : List.length (remove_nth i pending) = n).
      { apply Permutation_length in Hperm. simpl in Hperm. lia. }
      specialize (IH (remove_nth i pending) (results ++ [res])%list
                    (snd (h nat (NextCompleted (List.length pending)) w)) Hl).
      destruct (outcome (run h (as_completed n (remove_nth i pending)
                                  (results ++ [res])%list) _)) as [all | e].
      * destruct IH as (rs & -> & Hp). exists (res :: rs).
        rewrite <- app_assoc. split; [reflexivity |].
        simpl. rewrite <- Hperm. constructor. exact Hp.
      * apply (Permutation_in _ Hperm). right. exact IH.
    + simpl. apply (Permutation_in _ Hperm). left. reflexivity.
Qed.

(** A future holds what its job returned or raised; running it raises
    nothing. *)
Lemma run_future {W : Type} {hashlib : Hashlib} (h : Handler W) (j : Prog JobResult) (w : W) :
  run h (future j) w
  = (OK (outcome (run h j w)), final_world (run h j w), trace (run h j w)).
Proof.
  unfold future. rewrite run_try_except, run_bind.
  destruct (run h j w) as [[[r | e] w1] t]; simpl; unfold outcome, final_world, trace;
    simpl; rewrite app_nil_r; reflexivity.
Qed.

Lemma submit_all_run {W : Type} {hashlib : Hashlib} (h : Handler W)
  (jobs : list (Prog JobResult)) :
  forall w : W,
    outcome (run h (submit_all jobs) w) = OK (outcomes_in_turn h jobs w)
    /\ trace (run h (submit_all jobs) w) = traces_in_turn h jobs w.
Proof.
  induction jobs as [| j jobs IH]; intros w; simpl.
  - split; reflexivity.
  - rewrite run_bind, run_future, run_bind.
    destruct (IH (final_world (run h j w))) as [Ho Ht].
    destruct (run h (submit_all jobs) (final_world (run h j w))) as [[o w2] t2].
    unfold outcome, trace in *. simpl in *. subst o t2.
    rewrite app_nil_r. split; reflexivity.
Qed.

(** X16.  The pool.  Every job submitted is run, from where the job before
    it left the environment, and yields a future that holds what the job
    returned or raised: submitting raises nothing, and a job that raises
    does not keep the jobs after it from running.  Collecting the futures
    gives the results of all the jobs, in the order the environment
    completes them, or raises the exception one of the jobs raised. *)
Theorem run_pool_collects {W : Type} {hashlib : Hashlib} (h : Handler W)
  (jobs : list (Prog JobResult)) (w : W) :
  let futs := outcomes_in_turn h jobs w in
  outcome (run h (submit_all jobs) w) = OK futs
  /\ trace (run h (submit_all jobs) w) = traces_in_turn h jobs w
  /\ match outcome (run h (run_pool jobs) w) with
     | OK rs => Permutation (map OK rs) futs
     | Err e => In (Err e) futs
     end.
Proof.
  cbv zeta. destruct (submit_all_run h jobs w) as [Hf Ht].
  split; [exact Hf |]. split; [exact Ht |].
  unfold run_pool. rewrite outcome_bind, Hf.
  pose proof (as_completed_outcome h (List.length (outcomes_in_turn h jobs w))
                (outcomes_in_turn h jobs w) []
                (final_world (run h (submit_all jobs) w)) eq_refl) as H.
  destruct (outcome (run h (as_completed _ (outcomes_in_turn h jobs w) []) _)) as [rs | e].
  - destruct H as (rs' & -> & Hp). exact Hp.
  - exact H.
Qed.

(** ** The exit status, in general *)

Lemma post_ret {A : Type} (a : A) (Q : A -> Prop) : Q a -> post (Ret a) Q.
Proof. intros H W h w b E. injection E as <-. exact H. Qed.

Lemma post_throw {A : Type} (e : Exn) (Q : A -> Prop) : post (Throw e) Q.
Proof. intros W h w b E. discriminate E. Qed.

Lemma post_do {A R : Type} (op : Op R) (k : Result R -> Prog A) (Q : A -> Prop) :
  (forall r, post (k r) Q) -> post (Do op k) Q.
Proof. intros H W h w a E. rewrite outcome_do in E. exact (H _ W h _ a E). Qed.

Lemma post_bind {A B : Type} (p : Prog A) (f : A -> Prog B) (P : A -> Prop) (Q : B -> Prop) :
  post p P -> (forall a, P a -> post (f a) Q) -> post (bind p f) Q.
Proof.
  intros Hp Hf W h w b E. rewrite outcome_bind in E.
  destruct (outcome (run h p w)) as [a | e] eqn:Ea; [| discriminate E].
  exact (Hf a (Hp W h w a Ea) W h _ b E).
Qed.

Lemma post_try_except {A : Type} (p : Prog A) (clauses : Exn -> option (Prog A))
  (Q : A -> Prop) :
  post p Q -> (forall e q, clauses e = Some q -> post q Q) -> post (try_except p clauses) Q.
Proof.
  intros Hp Hc W h w a E. unfold outcome in E. rewrite run_try_except in E.
  destruct (run h p w) as [[[a' | e] w1] t1] eqn:Er.
  - simpl in E. injection E as <-. apply (Hp W h w). now rewrite Er.
  - destruct (clauses e) as [q |] eqn:Eq; [| discriminate E].
    destruct (run h q w1) as [[o w2] t2] eqn:Eq'. simpl in E. subst o.
    apply (Hc e q Eq W h w1). now rewrite Eq'.
Qed.

Lemma post_any {A : Type} (p : Prog A) : post p (fun _ => True).
Proof. intros W h w a _. exact I. Qed.

(** A namespace holds at most one of in-place mode and an output
    directory. *)
Lemma args_exclusive (args : Args.t) :
  Args.inplace args && is_some (Args.output args) = false.
Proof. unfold Args.inplace, Args.output. destruct (Args.target args); reflexivity. Qed.

(** What [main] returns. *)
Lemma main_returns {hashlib : Hashlib} {casefold : Casefold} (args : Args.t) :
  post (main args) (fun code => (code = 0 \/ code = 1 \/ code = 127)%Z).
Proof.
  unfold main.
  apply post_bind with (P := fun _ => True); [apply post_any |]. intros inputs _.
  apply post_bind
    with (P := fun od => Args.inplace args = true -> od = Args.output args).
  { destruct (Args.inplace args); cbn [negb andb].
    - apply post_ret. reflexivity.
    - destruct (negb (is_some (Args.output args)));
        [apply post_bind with (P := fun _ => True); [apply post_any |]; intros c _ |];
        apply post_ret; discriminate. }
  intros od Hod.
  destruct (Args.inplace args && is_some od) eqn:Hc.
  { exfalso. apply andb_prop in Hc. destruct Hc as [Hi Ho].
    pose proof (args_exclusive args) as Hx.
    rewrite <- (Hod Hi), Hi, Ho in Hx. discriminate Hx. }
  apply post_bind with (P := fun _ => True); [apply post_any |]. intros fv _.
  apply post_bind
    with (P := fun found : Flow Z (string * string) =>
                 match found with Return c => c = 127%Z | Go _ => True end).
  { apply post_try_except.
    - apply post_bind with (P := fun _ => True); [apply post_any |].
      intros d _. apply post_ret. exact I.
    - intros e q. unfold except_kind.
      destruct (kind_eqb (exn_kind e) RuntimeError); [| discriminate].
      intros E. injection E as <-. unfold err. simpl bind.
      apply post_do. intros _. apply post_ret. reflexivity. }
  intros [detected | c] Hfound.
  - apply post_bind with (P := fun _ => True); [apply post_any |].
    intros [| f files] _.
    + unfold warn. simpl bind. apply post_do. intros _. apply post_ret. auto.
    + apply post_bind with (P := fun _ => True); [apply post_any |]. intros root _.
      unfold log. simpl bind. apply post_do. intros _. apply post_do. intros _.
      apply post_bind with (P := fun _ => True); [apply post_any |]. intros results _.
      apply post_bind with (P := fun _ => True); [apply post_any |]. intros c _.
      apply post_do. intros _. apply post_ret.
      destruct (Nat.eqb (failed c) 0); auto.
  - apply post_ret. auto.
Qed.

(** X17.  The conflict of [--inplace] with [-o] never reaches [main]: the
    two are in a mutually exclusive group, [parse_args] exits on a command
    line that has both, and no namespace holds both.  So the conflict
    branch of [main] is dead, and [main] never returns 2: when it returns,
    its status is 0, 1 or 127. *)
Theorem main_conflict_unreachable {W : Type} {hashlib : Hashlib} {casefold : Casefold}
  (h : Handler W) (w : W) (args : Args.t) :
  Args.inplace args && is_some (Args.output args) = false
  /\ match outcome (run h (main args) w) with
     | OK code => (code = 0 \/ code = 1 \/ code = 127)%Z
     | Err _ => True
     end.
Proof.
  split; [apply args_exclusive |].
  destruct (outcome (run h (main args) w)) as [code | e] eqn:E; [| exact I].
  exact (main_returns args W h w code E).
Qed.

(** X18.  When [main] returns, its status is 0, 1, 2 or 127; it is 2 exactly
    when the namespace holds both in-place mode and an output directory. *)
Theorem main_statuses {W : Type} {hashlib : Hashlib} {casefold : Casefold}
  (h : Handler W) (w : W) (args : Args.t) (code : Z) :
  outcome (run h (main args) w) = OK code ->
  (code = 0 \/ code = 1 \/ code = 2 \/ code = 127)%Z
  /\ (code = 2%Z <-> Args.inplace args = true /\ is_some (Args.output args) = true).
Proof.
  intros E. pose proof (main_returns args W h w code E) as Hc. cbv beta in Hc.
  pose proof (args_exclusive args) as Hx.
  split; [tauto |]. split.
  - intros ->. destruct Hc as [F | [F | F]]; discriminate F.
  - intros [Hi Ho]. rewrite Hi, Ho in Hx. discriminate Hx.
Qed.

(** X18 at work: the status 127 of a machine without encoder. *)
Lemma main_statuses_witness :
  (127 = 0 \/ 127 = 1 \/ 127 = 2 \/ 127 = 127)%Z
  /\ (127%Z = 2%Z <->
      Args.inplace Scenario.one_file = true /\ is_some (Args.output Scenario.one_file) = true).
Proof.
  exact (main_statuses (hashlib := plain_digest) World.handle Scenario.bare
           Scenario.one_file 127%Z eq_refl).
Defined.

(** The run is taken apart where symbolic execution has stopped. *)
Ltac open_runs h :=
  repeat match goal with
    | |- context [run h ?p ?w] =>
        let o := fresh "o" in let w' := fresh "w" in let t := fresh "t" in
        destruct (run h p w) as [[o w'] t]
    end.

(** A run that contradicts what is assumed of the answers to [which] and
    to [cwd]. *)
Ltac no_answer h Hw Hcwd :=
  match goal with
  | _ : h Path Cwd _ = (Err ?e, _) |- _ =>
      destruct (Hcwd (Err e)) as (? & F); [member | discriminate F]
  | _ : h (option string) (Which ?n) _ = (Err ?e, _) |- _ =>
      destruct (Hw n (Err e)) as (? & F & _); [member | discriminate F]
  | E : h (option string) (Which ?n) _ = (OK ?r, _), T : opt_truthy ?r = true |- _ =>
      destruct (Hw n (OK r)) as (? & F & F'); [member |];
      injection F as <-; rewrite T in F'; discriminate F'
  | E : h (option string) (Which ?n) _ = (OK ?r, _),
    T : opt_truthy (if opt_truthy ?r then _ else _) = true |- _ =>
      destruct (Hw n (OK r)) as (? & F & F'); [member |];
      injection F as <-; rewrite F' in T; discriminate T
  end.

(** X19.  When every executable search of a run of [main] comes back empty (and
    the options are not in conflict), [main] prints the no-encoder error
    and returns 127; it has by then looked at no input: it has asked for
    the working directory and for the executables, nothing else. *)
Theorem main_no_encoder {W : Type} {hashlib : Hashlib} {casefold : Casefold}
  (h : Handler W) (w : W) (args : Args.t) :
  let x := run h (main args) w in
  Args.inplace args && is_some (Args.output args) = false ->
  (forall name r, In (EWhich name r) (trace x) ->
                  exists found, r = OK found /\ opt_truthy found = false) ->
  (forall r, In (ECwd r) (trace x) -> exists c, r = OK c) ->
  outcome x = OK 127%Z
  /\ Forall (fun e => startup_event e = true) (trace x)
  /\ final 1 (trace x) = [EPrint Stderr ("[ERROR] " ++ no_encoder_msg)].
Proof.
  cbv zeta. intros Hc. focus_on_run h.
  unfold main, detect_converter, which_ffmpeg, which_afconvert, perform, err, warn,
    except_kind.
  destruct (Args.inplace args) eqn:Hin, (Args.output args) as [out |] eqn:Hout;
    try discriminate Hc.
  all: destruct (Args.inputs args) as [| a given].
  all: generalize gather_inputs; intros gather.
  all: drive h; open_runs h; at_end.
  all: intros Hw Hcwd.
  all: try solve [exfalso; no_answer h Hw Hcwd].
  all: try solve [split; [reflexivity | split; [repeat constructor | reflexivity]]].
Qed.

(** X19 at work: [flac2alac.py music/a.flac] on a machine without encoder. *)
Lemma main_no_encoder_witness :
  let x := run World.handle (main (hashlib := plain_digest) Scenario.one_file)
             Scenario.bare in
  outcome x = OK 127%Z
  /\ Forall (fun e => startup_event e = true) (trace x)
  /\ final 1 (trace x) = [EPrint Stderr ("[ERROR] " ++ no_encoder_msg)].
Proof.
  apply (main_no_encoder (hashlib := plain_digest) World.handle Scenario.bare
           Scenario.one_file eq_refl).
  - vm_compute. intros name r H.
    repeat (destruct H as [H | H];
            [first [discriminate H
                   | injection H as <- <-; exists None; split; reflexivity] |]).
    contradiction.
  - vm_compute. intros r H.
    repeat (destruct H as [H | H];
            [first [discriminate H | injection H as <-; eexists; reflexivity] |]).
    contradiction.
Defined.

(** ** The order of the report *)

Section Ends.
Context {W : Type} (h : Handler W).

Lemma whole_ret {A : Type} (a : A) (Q : A -> list Event -> Prop) :
  Q a [] -> whole h (Ret a) Q.
Proof. intros H w b E. injection E as <-. exact H. Qed.

Lemma whole_do {A R : Type} (op : Op R) (k : Result R -> Prog A)
  (Q : A -> list Event -> Prop) :
  (forall r, whole h (k r) (fun a t => Q a (event_of op r :: t))) -> whole h (Do op k) Q.
Proof.
  intros H w a E. rewrite outcome_do in E. rewrite trace_do.
  exact (H _ _ a E).
Qed.

Lemma whole_bind {A B : Type} (p : Prog A) (f : A -> Prog B)
  (P : A -> list Event -> Prop) (Q : B -> list Event -> Prop) :
  whole h p P ->
  (forall a t1, P a t1 -> whole h (f a) (fun b t2 => Q b (t1 ++ t2)%list)) ->
  whole h (bind p f) Q.
Proof.
  intros Hp Hf w b E. rewrite outcome_bind in E. rewrite trace_bind.
  destruct (outcome (run h p w)) as [a | e] eqn:Ea; [| discriminate E].
  exact (Hf a _ (Hp w a Ea) _ b E).
Qed.

Lemma ends_whole {A : Type} (p : Prog A) (Q : A -> list Event -> Prop) :
  whole h p Q -> ends h p Q.
Proof.
  intros H w a E. exists [], (trace (run h p w)). split; [reflexivity | exact (H w a E)].
Qed.

Lemma ends_do {A R : Type} (op : Op R) (k : Result R -> Prog A)
  (Q : A -> list Event -> Prop) :
  (forall r, ends h (k r) Q) -> ends h (Do op k) Q.
Proof.
  intros H w a E. rewrite outcome_do in E. rewrite trace_do.
  destruct (H _ _ a E) as (before & tail & -> & HQ).
  exists (event_of op (fst (h R op w)) :: before), tail. split; [reflexivity | exact HQ].
Qed.

Lemma ends_bind {A B : Type} (p : Prog A) (f : A -> Prog B) (P : A -> Prop)
  (Q : B -> list Event -> Prop) :
  post p P -> (forall a, P a -> ends h (f a) Q) -> ends h (bind p f) Q.
Proof.
  intros Hp Hf w b E. rewrite outcome_bind in E. rewrite trace_bind.
  destruct (outcome (run h p w)) as [a | e] eqn:Ea; [| discriminate E].
  destruct (Hf a (Hp W h w a Ea) _ b E) as (before & tail & -> & HQ).
  exists (trace (run h p w) ++ before)%list, tail.
  split; [now rewrite app_assoc | exact HQ].
Qed.

Lemma ends_bind_either {A B : Type} (p : Prog A) (f : A -> Prog B)
  (P : A -> list Event -> Prop) (Q : B -> list Event -> Prop) :
  ends h p P ->
  (forall a, (forall tail, P a tail -> whole h (f a) (fun b t2 => Q b (tail ++ t2)%list))
             \/ ends h (f a) Q) ->
  ends h (bind p f) Q.
Proof.
  intros Hp Hf w b E. rewrite outcome_bind in E. rewrite trace_bind.
  destruct (outcome (run h p w)) as [a | e] eqn:Ea; [| discriminate E].
  destruct (Hp w a Ea) as (before & tail & -> & HP).
  destruct (Hf a) as [Hw | He].
  - exists before, (tail ++ trace (run h (f a) (final_world (run h p w))))%list.
    split; [now rewrite app_assoc |]. exact (Hw tail HP _ b E).
  - destruct (He _ b E) as (before2 & tail2 & -> & HQ).
    exists ((before ++ tail) ++ before2)%list, tail2.
    split; [now rewrite app_assoc | exact HQ].
Qed.

(** The lines of the report loop, and its counters. *)
Lemma report_whole (rs : list JobResult) :
  forall c, whole h (report rs c)
              (fun c' t =>
                 t = map report_line_of rs
                 /\ c' = mkCounts (ok c + count counted_ok rs)
                           (skipped c + count counted_skip rs)
                           (failed c + count counted_failed rs)).
Proof.
  unfold count.
  induction rs as [| r rs IH]; intros c; simpl report.
  - apply whole_ret. simpl. rewrite !Nat.add_0_r. destruct c. split; reflexivity.
  - unfold classify, report_line_of, status_of, counted_skip, counted_dry, counted_ok,
      counted_failed in *.
    simpl filter. simpl map.
    destruct (Str.startswith (job_msg r) "skip");
      [| destruct (Str.startswith (job_msg r) "dry-run"); [| destruct (job_success r)]];
      simpl negb; simpl andb; cbv iota;
      apply whole_do; intros r0 w a E;
      destruct (IH _ w a E) as [-> ->];
      (split; [reflexivity |]); simpl; f_equal; lia.
Qed.

(** The encoder detection of [main]: when it ends [main], the error has
    just been printed and the status is 127. *)
Lemma detection_ends (prefer : bool) (path : option string) :
  ends h (try_except
            (d <- detect_converter prefer path ;; Ret (Go (R := Z) d))
            (except_kind RuntimeError (fun e => err (exn_msg e) ;; Ret (Return 127%Z))))
    (fun found tail =>
       match found with
       | Return c => c = 127%Z /\ exists msg, tail = [EPrint Stderr ("[ERROR] " ++ msg)]
       | Go _ => True
       end).
Proof.
  intros w found E. unfold outcome, trace in *.
  rewrite run_try_except, run_bind in *.
  destruct (run h (detect_converter prefer path) w) as [[[d | e] w1] t1]; simpl in *.
  - injection E as <-. exists [], (t1 ++ [])%list. split; [reflexivity | exact I].
  - unfold except_kind in *. destruct (kind_eqb (exn_kind e) RuntimeError).
    + unfold err in *. simpl in *. destruct (h unit _ w1) as [r w2]. simpl in *.
      injection E as <-. exists t1, [EPrint Stderr ("[ERROR] " ++ exn_msg e)].
      split; [reflexivity |]. split; [reflexivity |]. exists (exn_msg e). reflexivity.
    + discriminate E.
Qed.

End Ends.

(** Every job of the loop, and every job of the pool, gives one result. *)
Lemma run_sequential_length {hashlib : Hashlib} (jobs : list (Prog JobResult)) :
  forall acc, post (run_sequential jobs acc)
                (fun rs => List.length rs = List.length acc + List.length jobs).
Proof.
  induction jobs as [| j jobs IH]; intros acc; simpl.
  - apply post_ret. lia.
  - apply post_bind with (P := fun _ => True); [apply post_any |]. intros r _.
    intros W h w rs E. rewrite (IH _ W h w rs E), length_app. simpl. lia.
Qed.

Lemma outcomes_in_turn_length {W : Type} (h : Handler W) (jobs : list (Prog JobResult)) :
  forall w, List.length (outcomes_in_turn h jobs w) = List.length jobs.
Proof. induction jobs as [| j jobs IH]; intros w; simpl; [reflexivity | now rewrite IH]. Qed.

Lemma run_pool_length {hashlib : Hashlib} (jobs : list (Prog JobResult)) :
  post (run_pool jobs) (fun rs => List.length rs = List.length jobs).
Proof.
  intros W h w rs E. unfold run_pool in E. rewrite outcome_bind in E.
  destruct (submit_all_run h jobs w) as [Hf _]. rewrite Hf in E.
  pose proof (as_completed_outcome h (List.length (outcomes_in_turn h jobs w))
                (outcomes_in_turn h jobs w) []
                (final_world (run h (submit_all jobs) w)) eq_refl) as H.
  rewrite E in H. destruct H as (rs' & -> & Hp).
  apply Permutation_length in Hp. rewrite length_map, outcomes_in_turn_length in Hp.
  exact Hp.
Qed.

Lemma main_ends {W : Type} {hashlib : Hashlib} {casefold : Casefold} (h : Handler W)
  (args : Args.t) :
  ends h (main args) (main_ending h).
Proof.
  unfold main.
  apply ends_bind with (P := fun _ => True); [apply post_any |]. intros inputs _.
  apply ends_bind
    with (P := fun od => Args.inplace args = true -> od = Args.output args).
  { destruct (Args.inplace args); cbn [negb andb].
    - apply post_ret. reflexivity.
    - destruct (negb (is_some (Args.output args)));
        [apply post_bind with (P := fun _ => True); [apply post_any |]; intros c _ |];
        apply post_ret; discriminate. }
  intros od Hod.
  destruct (Args.inplace args && is_some od) eqn:Hc.
  { exfalso. apply andb_prop in Hc. destruct Hc as [Hi Ho].
    pose proof (args_exclusive args) as Hx.
    rewrite <- (Hod Hi), Hi, Ho in Hx. discriminate Hx. }
  apply ends_bind with (P := fun _ => True); [apply post_any |]. intros fv _.
  cbv zeta.
  eapply ends_bind_either; [apply detection_ends |].
  intros [detected | code].
  - right.
    apply ends_bind with (P := fun _ => True); [apply post_any |].
    intros [| f files] _.
    + unfold warn. simpl bind. apply ends_whole, whole_do. intros r.
      apply whole_ret. right. left. split; reflexivity.
    + apply ends_bind with (P := fun _ => True); [apply post_any |]. intros root _.
      unfold log. cbn [bind]. apply ends_do. intros _.
      apply ends_whole, whole_do. intros r1.
      match goal with
      | |- context [map (fun f0 => convert_one f0 ?o detected root) (f :: files)] =>
          set (opts := o)
      end.
      set (jobs := map (fun f0 => convert_one f0 opts detected root) (f :: files)).
      set (dispatch := if (workers opts =? 1)%Z then run_sequential jobs []
                       else run_pool jobs).
      eapply whole_bind
        with (P := fun results t =>
                     exists w0, outcome (run h dispatch w0) = OK results
                                /\ t = trace (run h dispatch w0)
                                /\ List.length results = List.length (f :: files)).
      { intros w0 rs E. exists w0. split; [exact E |]. split; [reflexivity |].
        assert (Hj : List.length jobs = List.length (f :: files))
          by (subst jobs; apply length_map).
        rewrite <- Hj. subst dispatch.
        destruct (_ =? 1)%Z.
        - exact (run_sequential_length jobs [] W h w0 rs E).
        - exact (run_pool_length jobs W h w0 rs E). }
      intros results middle (w0 & E & -> & Hlen).
      eapply whole_bind; [apply report_whole |].
      intros c lines [-> ->]. cbv beta.
      apply whole_do. intros r2. apply whole_ret.
      right. right.
      exists (f :: files), opts, detected, root, w0, results, (sorted_by report_leb results).
      cbv zeta. fold jobs. fold dispatch.
      split; [discriminate |]. split; [exact E |]. split; [exact Hlen |].
      split; [apply sorted_by_perm |].
      split; [apply (sorted_by_sorted JobResult report_leb); intros a b;
              apply string_leb_total |].
      split; reflexivity.
  - left. intros tail [-> [msg ->]]. apply whole_ret. left.
    split; [reflexivity |]. exists msg. reflexivity.
Qed.

(** X14.  How a run of [main] that returns has ended, and the order of its
    report.  It has ended in one of three ways: with the error of the
    encoder detection, and the status 127; with the warning that no
    eligible file was found, and the status 0; or with the jobs and the
    report.  In the last case the jobs, one for each file, are dispatched
    after the line that announces their number; the results they give are
    reported one line each, rearranged in ascending order of the source
    path written out and folded to lower case; the line of the totals
    follows, and the status is 0 if no reported result is counted as
    failed and 1 otherwise. *)
Theorem report_order {W : Type} {hashlib : Hashlib} {casefold : Casefold}
  (h : Handler W) (w : W) (args : Args.t) (code : Z) :
  outcome (run h (main args) w) = OK code ->
  exists before tail,
    trace (run h (main args) w) = (before ++ tail)%list /\ main_ending h code tail.
Proof. intros E. exact (main_ends h args w code E). Qed.

(** X14 at work: [flac2alac.py /home/u/music] reports its two files. *)
Lemma report_order_witness :
  exists before tail,
    trace (run World.handle (main (hashlib := plain_digest) Scenario.absolute_directory)
             Scenario.studio)
    = (before ++ tail)%list
    /\ main_ending (hashlib := plain_digest) World.handle 0%Z tail.
Proof.
  exact (report_order (hashlib := plain_digest) World.handle Scenario.studio
           Scenario.absolute_directory 0%Z eq_refl).
Defined.

(** ** Jobs *)

(** X20.  Where a job raises.  If the destination cannot be computed, the job
    raises at once, having asked nothing.  Otherwise an exception leaves
    the job only from the skip check ([exists], or a [stat] that raises
    something other than [FileNotFoundError]), from the [exists] before
    the fallback backend overwrites, or from [mkdir]: the request that
    raised is the last one made, and no subprocess has been started.  Once
    the encoder has been started, the job returns a result. *)
Theorem job_raise_points {hashlib : Hashlib} {W : Type} (h : Handler W) (w : W)
  (src : Path) (opts : Options) (detected : string * string) (input_root : option Path) :
  let job := run h (convert_one src opts detected input_root) w in
  match compute_output_path src opts input_root with
  | Err e => job = (Err e, w, [])
  | OK dst =>
      forall e, outcome job = Err e ->
        Forall (fun ev => is_subprocess ev = false) (trace job)
        /\ (final 1 (trace job) = [EExists dst (Err e)]
            \/ (exn_kind e <> FileNotFoundError
                /\ exists p, final 1 (trace job) = [EStat p (Err e)])
            \/ final 1 (trace job) = [EMkdir (PurePath.parent dst) (Err e)])
  end.
Proof.
  cbv zeta. destruct detected as [kind bin_path].
  destruct (compute_output_path src opts input_root) as [dst | e0] eqn:Hdst.
  - focus_on_run h. open_job. rewrite Hdst.
    drive h; at_end.
    all: intros x Hx; try discriminate Hx; injection Hx as <-.
    all: split; [repeat constructor |].
    all: first
      [ left; reflexivity
      | right; right; reflexivity
      | right; left; split;
        [ intros F; rewrite F in *; discriminate | eexists; reflexivity ] ].
  - open_job. rewrite Hdst. reflexivity.
Qed.

(** X21.  What a result with the success flag set tells.  The result of a job
    always names the job's source and destination.  If its flag is set,
    the job was skipped, or planned in a dry run (in both cases it only
    read metadata), or it is the ok result of a job that has passed
    conversion and, where asked for and possible, verification. *)
Theorem job_success_means {hashlib : Hashlib} {W : Type} (h : Handler W) (w : W)
  (src dst : Path) (opts : Options) (detected : string * string)
  (input_root : option Path) :
  compute_output_path src opts input_root = OK dst ->
  let job := run h (convert_one src opts detected input_root) w in
  forall r, outcome job = OK r ->
    fst (fst r) = (src, Some dst)
    /\ (job_success r = true ->
        (job_msg r = skip_msg /\ Forall (fun e => is_query e = true) (trace job))
        \/ (job_msg r = dry_msg /\ dry_run opts = true
            /\ Forall (fun e => is_query e = true) (trace job))
        \/ (job_msg r = "ok" /\ dry_run opts = false
            /\ passed src dst opts (trace job))).
Proof.
  intros Hdst. cbv zeta. destruct detected as [kind bin_path].
  unfold passed.
  focus_on_run h. open_job. rewrite Hdst.
  drive h; at_end.
  all: intros x Hx; try discriminate Hx; injection Hx as <-.
  all: split; [reflexivity |].
  all: unfold job_success, job_msg; simpl; intros Hs; try discriminate Hs.
  all: first
    [ solve [left; split; [reflexivity | repeat constructor]]
    | solve [right; left; split; [reflexivity | split; [reflexivity | repeat constructor]]]
    | right; right; split; [reflexivity | split; [reflexivity |]] ].
  all: unpack.
  all: (split; [do 2 eexists; split; [member | assumption] |]).
  all: intros; try done.
  all: do 3 eexists; repeat split; [member | member | eassumption | congruence].
Qed.

(** X21 at work: [b.flac] converted and verified. *)
Lemma job_success_means_witness :
  let opts := Scenario.options false false false true (Some Scenario.ffmpeg) in
  let job := run World.handle
               (convert_one (hashlib := plain_digest) Scenario.b_flac opts
                  ("ffmpeg", Scenario.ffmpeg) None) Scenario.studio in
  let r := (Scenario.b_flac, Some Scenario.b_m4a, true, "ok") in
  fst (fst r) = (Scenario.b_flac, Some Scenario.b_m4a)
  /\ (job_success r = true ->
      (job_msg r = skip_msg /\ Forall (fun e => is_query e = true) (trace job))
      \/ (job_msg r = dry_msg /\ dry_run opts = true
          /\ Forall (fun e => is_query e = true) (trace job))
      \/ (job_msg r = "ok" /\ dry_run opts = false
          /\ passed (hashlib := plain_digest) Scenario.b_flac Scenario.b_m4a opts (trace job))).
Proof.
  exact (job_success_means (hashlib := plain_digest) World.handle Scenario.studio
           Scenario.b_flac Scenario.b_m4a
           (Scenario.options false false false true (Some Scenario.ffmpeg))
           ("ffmpeg", Scenario.ffmpeg) None eq_refl
           (Scenario.b_flac, Some Scenario.b_m4a, true, "ok") eq_refl).
Defined.

(** X22.  The encoder run of a job.  Its command is the one built for the
    backend.  If the encoder cannot be started, the job fails with the
    command-not-found message for a [FileNotFoundError] and with [str(e)]
    otherwise.  If the encoder exits with a non-zero status, the job
    fails: with what the encoder wrote to its standard error, stripped
    (the default message if that is empty); or, if the look at the
    destination that follows raised ([exists] or [stat]; a failed deletion
    is ignored), with the message of that exception, as if the encoder had
    raised it: a [FileNotFoundError] there is reported as the command not
    being found.  In all these cases no decoder is started and the source
    is not deleted. *)
Theorem encoder_failure {hashlib : Hashlib} {W : Type} (h : Handler W) (w : W)
  (src dst : Path) (opts : Options) (detected : string * string)
  (input_root : option Path) :
  compute_output_path src opts input_root = OK dst ->
  let job := run h (convert_one src opts detected input_root) w in
  forall cmd r, In (ERun cmd r) (trace job) ->
    cmd = encoder_cmd src dst opts detected
    /\ match r with
       | OK proc =>
           returncode proc <> 0%Z ->
           exists msg,
             outcome job = OK (src, Some dst, false, msg)
             /\ Forall (stopped_at_encoder dst) (trace job)
             /\ (msg = (if Str.truthy (Str.strip (stderr proc))
                        then Str.strip (stderr proc) else "変換に失敗")
                 \/ exists e,
                      (final 1 (trace job) = [EExists dst (Err e)]
                       \/ final 1 (trace job) = [EStat dst (Err e)])
                      /\ msg = caught_msg (snd detected) e)
       | Err e =>
           outcome job = OK (src, Some dst, false, caught_msg (snd detected) e)
           /\ Forall (stopped_at_encoder dst) (trace job)
       end.
Proof.
  intros Hdst. cbv zeta. destruct detected as [kind bin_path].
  unfold encoder_cmd, stopped_at_encoder, caught_msg. simpl fst. simpl snd.
  focus_on_run h. open_job. rewrite Hdst.
  drive h; at_end.
  all: intros the_cmd the_answer Hin; unpack; try done.
  all: split; [reflexivity |].
  all: try (intros Hrc; unpack; first [done | eexists; split; [reflexivity |]]).
  all: try match goal with
         | E : kind_eqb (exn_kind ?e) _ = _ |- context [kind_eqb (exn_kind ?e) _] =>
             rewrite E
         end.
  all: split; [solve [reflexivity | repeat constructor] |].
  all: try solve [repeat constructor].
  all: first
    [ left; reflexivity
    | right; eexists; split; [first [left; reflexivity | right; reflexivity] |];
      match goal with
      | E : kind_eqb (exn_kind ?e) _ = _ |- _ => rewrite E; reflexivity
      end ].
Qed.

(** X22 at work: the broken [skip.flac]. *)
Lemma encoder_failure_witness :
  let opts := Scenario.options false false false false (Some Scenario.ffmpeg) in
  let detected := ("ffmpeg", Scenario.ffmpeg) in
  let src := Scenario.P "skip.flac" in
  let dst := Scenario.P "/home/u/alac/skip.m4a" in
  let job := run World.handle (convert_one (hashlib := plain_digest) src opts detected None)
               Scenario.broken in
  let proc := mkCompleted 1 "skip.flac: Invalid data found when processing input
" in
  encoder_cmd src dst opts detected = encoder_cmd src dst opts detected
  /\ (returncode proc <> 0%Z ->
      exists msg,
        outcome job = OK (src, Some dst, false, msg)
        /\ Forall (stopped_at_encoder dst) (trace job)
        /\ (msg = (if Str.truthy (Str.strip (stderr proc))
                   then Str.strip (stderr proc) else "変換に失敗")
            \/ exists e,
                 (final 1 (trace job) = [EExists dst (Err e)]
                  \/ final 1 (trace job) = [EStat dst (Err e)])
                 /\ msg = caught_msg (snd detected) e)).
Proof.
  apply (encoder_failure (hashlib := plain_digest) World.handle Scenario.broken
           (Scenario.P "skip.flac") (Scenario.P "/home/u/alac/skip.m4a")
           (Scenario.options false false false false (Some Scenario.ffmpeg))
           ("ffmpeg", Scenario.ffmpeg) None eq_refl
           (encoder_cmd (Scenario.P "skip.flac") (Scenario.P "/home/u/alac/skip.m4a")
              (Scenario.options false false false false (Some Scenario.ffmpeg))
              ("ffmpeg", Scenario.ffmpeg))
           (OK (mkCompleted 1 "skip.flac: Invalid data found when processing input
"))).
  vm_compute. tauto.
Defined.

(** X23.  A job starts its encoder at most once, not in a dry run, after the
    destination's directory has been made, with the command built for the
    backend.  It starts a decoder only with verification asked for and
    possible, after the encoder has exited with status 0: first on the
    source, then, the source decoded, on the destination. *)
Theorem subprocess_order {hashlib : Hashlib} {W : Type} (h : Handler W) (w : W)
  (src dst : Path) (opts : Options) (detected : string * string)
  (input_root : option Path) :
  compute_output_path src opts input_root = OK dst ->
  each_after (starts_in_order src dst opts detected) []
    (trace (run h (convert_one src opts detected input_root) w)).
Proof.
  intros Hdst. destruct detected as [kind bin_path].
  unfold starts_in_order, encoder_cmd. simpl fst. simpl snd.
  focus_on_run h. open_job. rewrite Hdst.
  drive h; at_end.
  all: unpack; units; repeat split; try done.
  all: try solve [member].
  all: try solve [repeat constructor].
  all: try solve [do 2 eexists; split; [member | assumption]].
  all: first
    [ solve [left; split; [reflexivity | repeat constructor]]
    | solve [right; split; [reflexivity |]; do 2 eexists; split;
             [reflexivity | eassumption]] ].
Qed.

(** X23 at work: [b.flac] converted and verified. *)
Lemma subprocess_order_witness :
  each_after
    (starts_in_order (hashlib := plain_digest) Scenario.b_flac Scenario.b_m4a
       (Scenario.options false false false true (Some Scenario.ffmpeg))
       ("ffmpeg", Scenario.ffmpeg)) []
    (trace (run World.handle
              (convert_one (hashlib := plain_digest) Scenario.b_flac
                 (Scenario.options false false false true (Some Scenario.ffmpeg))
                 ("ffmpeg", Scenario.ffmpeg) None) Scenario.studio)).
Proof.
  exact (subprocess_order (hashlib := plain_digest) World.handle Scenario.studio
           Scenario.b_flac Scenario.b_m4a
           (Scenario.options false false false true (Some Scenario.ffmpeg))
           ("ffmpeg", Scenario.ffmpeg) None eq_refl).
Defined.

Ltac all_of :=
  repeat match goal with
    | H : Forall _ (_ :: _) |- _ => inversion H; clear H; subst
    end.

(** X24.  With the fallback backend and overwrite on, a destination that is
    there and cannot be deleted ends the job before the encoder is
    started: in a job that started no subprocess, a failed deletion of the
    destination is the job's last act, and the job fails with the
    deletion's error. *)
Theorem overwrite_blocked {hashlib : Hashlib} {W : Type} (h : Handler W) (w : W)
  (src dst : Path) (opts : Options) (detected : string * string)
  (input_root : option Path) (e : Exn) :
  compute_output_path src opts input_root = OK dst ->
  let job := run h (convert_one src opts detected input_root) w in
  In (EUnlink dst (Err e)) (trace job) ->
  Forall (fun ev => is_subprocess ev = false) (trace job) ->
  outcome job = OK (src, Some dst, false, "出力の削除に失敗: " ++ exn_msg e)
  /\ final 2 (trace job) = [EExists dst (OK true); EUnlink dst (Err e)]
  /\ fst detected <> "ffmpeg" /\ overwrite opts = true.
Proof.
  intros Hdst. cbv zeta. destruct detected as [kind bin_path]. simpl fst.
  focus_on_run h. open_job. rewrite Hdst.
  drive h; at_end.
  all: intros Hin Hall; all_of; try discriminate.
  all: unpack; try done.
  all: repeat split; try done.
Qed.

(** X24 at work: an old [a.m4a] that cannot be deleted. *)
Lemma overwrite_blocked_witness :
  let opts := Scenario.options true false false false None in
  let job := run Scenario.vanishing
               (convert_one (hashlib := plain_digest) Scenario.a_flac opts
                  ("afconvert", Scenario.afconvert) None) tt in
  let e := World.enoent Scenario.a_m4a in
  outcome job = OK (Scenario.a_flac, Some Scenario.a_m4a, false,
                    "出力の削除に失敗: " ++ exn_msg e)
  /\ final 2 (trace job) = [EExists Scenario.a_m4a (OK true); EUnlink Scenario.a_m4a (Err e)]
  /\ fst ("afconvert", Scenario.afconvert) <> "ffmpeg" /\ overwrite opts = true.
Proof.
  apply (overwrite_blocked (hashlib := plain_digest) Scenario.vanishing tt
           Scenario.a_flac Scenario.a_m4a (Scenario.options true false false false None)
           ("afconvert", Scenario.afconvert) None (World.enoent Scenario.a_m4a) eq_refl).
  - vm_compute. tauto.
  - vm_compute. repeat constructor.
Defined.
